(** * splotty-labels: preset data model and JSON persistence

    A shallow embedding of [models.py] and [storage.py].

    - Python values that the storage layer only passes through are kept
      dynamic ([py]): the loader stores whatever the document holds.
    - Python dicts read from a document are ordered association lists (the
      iteration order decides which exception is raised first); the dicts
      of a [Preset] are finite maps, and a tag set is a finite set.
    - The directory of presets is a finite map from path strings (relative
      to [base_dir]) to the contents of regular files; a path with a
      separator is a file below the directory.  Subdirectories are not
      entries of their own: a subdirectory whose name ends in [.json],
      which [glob] would return, is not represented, and statements about
      the listing are made for preset files, or for directories without
      subdirectories.  A file's text is kept up to what [json.loads] makes
      of it: a complete JSON text is represented by the value it denotes,
      other text does not parse, and bytes that are not text do not decode.
    - Paths are taken as written (no normalisation of ".", ".." or of
      repeated separators), and every write and rename succeeds: missing
      parent directories, permissions and full disks are not modelled.
    - Exceptions are values of [exn].  A run that completes without an
      exception but with a result that the typed records below do not
      hold ends in [Untyped]: [load] of a document whose [root_id] is a
      number, or whose tags are numbers or one string, returns such a
      preset, and [save] of a preset whose name is not a string writes a
      file whose name is not computed here.  [load] is followed far enough
      to raise exactly the exceptions the code raises: after such a field
      the remaining fields and the root check are still examined. *)

From stdpp Require Import gmap strings list fin_maps sorting.
From Stdlib Require Import Ascii String ZArith.

Local Open Scope string_scope.

(** ** Python values *)

#[warnings="-register-all"]
Inductive py : Type :=
  | PNone
  | PBool (b : bool)
  | PInt (z : Z)
  | PFloat (lit : string)
  | PStr (s : string)
  | PList (xs : list py)
  | PDict (kvs : list (string * py)).

Inductive exn : Type :=
  | JSONDecodeError
  | KeyError (k : string)
  | TypeError
  | AttributeError
  | FileNotFoundError
  | UnicodeDecodeError.

Inductive outcome (A : Type) : Type :=
  | Ok (a : A)
  | Raise (e : exn)
  | Untyped.
Arguments Ok {A} a.
Arguments Raise {A} e.
Arguments Untyped {A}.

Definition obind {A B} (m : outcome A) (k : A → outcome B) : outcome B :=
  match m with
  | Ok a => k a
  | Raise e => Raise e
  | Untyped => Untyped
  end.

Declare Scope out_scope.
Delimit Scope out_scope with out.
Notation "x <- m ;; k" := (obind m (fun x => k))
  (at level 100, m at next level, right associativity) : out_scope.

(** [d.get(k)] on an association list: the first binding of [k]. *)
Fixpoint dict_get {V} (k : string) (kvs : list (string * V)) : option V :=
  match kvs with
  | [] => None
  | (k', v) :: rest => if decide (k = k') then Some v else dict_get k rest
  end.

(** [d.get(k, dflt)]: only a dict has the method. *)
Definition py_get (d : py) (k : string) (dflt : py) : outcome py :=
  match d with
  | PDict kvs => Ok (default dflt (dict_get k kvs))
  | _ => Raise AttributeError
  end.

(** [d[k]]: a missing key of a dict is a [KeyError]; subscripting any other
    JSON value with a string is a [TypeError]. *)
Definition py_getitem (d : py) (k : string) : outcome py :=
  match d with
  | PDict kvs =>
      match dict_get k kvs with
      | Some v => Ok v
      | None => Raise (KeyError k)
      end
  | _ => Raise TypeError
  end.

(** [d.items()] *)
Definition py_items (d : py) : outcome (list (string * py)) :=
  match d with
  | PDict kvs => Ok kvs
  | _ => Raise AttributeError
  end.

Definition hashable (v : py) : bool :=
  match v with
  | PList _ | PDict _ => false
  | _ => true
  end.

Definition as_str (v : py) : option string :=
  match v with
  | PStr s => Some s
  | _ => None
  end.

Fixpoint all_str (xs : list py) : option (list string) :=
  match xs with
  | [] => Some []
  | x :: rest =>
      match as_str x, all_str rest with
      | Some s, Some ss => Some (s :: ss)
      | _, _ => None
      end
  end.

(** [set(v)].  A list is hashed element by element, a dict gives its keys;
    [None] and numbers are not iterable.  Hashable elements that are not
    strings, and the characters of a string, give a set that is not
    represented here: the call returns, [Untyped]. *)
Definition py_set (v : py) : outcome (gset string) :=
  match v with
  | PList xs =>
      if forallb hashable xs then
        match all_str xs with
        | Some ss => Ok (list_to_set ss)
        | None => Untyped
        end
      else Raise TypeError
  | PDict kvs => Ok (list_to_set (kvs.*1))
  | PStr _ => Untyped
  | _ => Raise TypeError
  end.

(** [sorted(s)] for a set of strings: Python compares strings by code
    point, which on UTF-8 bytes is the byte-wise lexicographic order. *)
Definition sorted (s : gset string) : list string :=
  merge_sort String.le (elements s).

(** ** models.py *)

Module TreeNode.
Record t : Type := mk {
  id : string;
  name : py;
  type : py;
  parent_id : py;
  children : py;
  expanded : py;
  field_id : py
}.
End TreeNode.

Module FieldDef.
Record t : Type := mk {
  id : string;
  label : py;
  tags : gset string;
  origin_index : py
}.
End FieldDef.

Module Preset.
Record t : Type := mk {
  name : py;
  device : py;
  baud : py;
  parity : py;
  stopbits : py;
  monitor_secs : py;
  ui_max_preview : py;
  ui_max_dynamic : py;
  ui_max_help : py;
  tree_nodes : gmap string TreeNode.t;
  fields : gmap string FieldDef.t;
  root_id : py;
  last_preview : py
}.

(** [Preset(name=n)]: the dataclass defaults. *)
Definition new (n : py) : t :=
  {| name := n; device := PStr ""; baud := PInt 115200; parity := PStr "N";
     stopbits := PInt 1; monitor_secs := PInt 3; ui_max_preview := PInt 8;
     ui_max_dynamic := PInt 3; ui_max_help := PInt 2;
     tree_nodes := ∅; fields := ∅; root_id := PStr "root";
     last_preview := PNone |}.

Definition set_tree_nodes (p : t) (m : gmap string TreeNode.t) : t :=
  {| name := name p; device := device p; baud := baud p; parity := parity p;
     stopbits := stopbits p; monitor_secs := monitor_secs p;
     ui_max_preview := ui_max_preview p; ui_max_dynamic := ui_max_dynamic p;
     ui_max_help := ui_max_help p;
     tree_nodes := m; fields := fields p; root_id := root_id p;
     last_preview := last_preview p |}.
End Preset.

(** [TreeNode(id=r, name="Root", type="branch", parent_id=None)] with the
    defaults [children=[]], [expanded=True], [field_id=None]. *)
Definition root_node (r : string) : TreeNode.t :=
  TreeNode.mk r (PStr "Root") (PStr "branch") PNone (PList []) (PBool true) PNone.

(** ** Paths (pathlib)

    A path is the string that follows [base_dir]; the functions below are
    pathlib's [name], [suffix], [stem] and [with_suffix] on it. *)

Definition is_sep (c : ascii) : bool := bool_decide (c = "/"%char).
Definition is_dot (c : ascii) : bool := bool_decide (c = "."%char).

Fixpoint has_sep (s : string) : bool :=
  match s with
  | "" => false
  | String c r => is_sep c || has_sep r
  end.

(** [(parent with its trailing separator, final component)] *)
Fixpoint path_split (p : string) : string * string :=
  match p with
  | "" => ("", "")
  | String c r =>
      let '(d, n) := path_split r in
      if has_sep r then (String c d, n)
      else if is_sep c then (String c "", n)
      else ("", String c n)
  end.

(** [name.rfind('.')] *)
Fixpoint rfind_dot (s : string) : option nat :=
  match s with
  | "" => None
  | String c r =>
      match rfind_dot r with
      | Some i => Some (S i)
      | None => if is_dot c then Some 0 else None
      end
  end.

Definition str_take (n : nat) (s : string) : string := substring 0 n s.
Definition str_drop (n : nat) (s : string) : string :=
  substring n (String.length s - n) s.

(** [PurePath.suffix], on the final component: the part from the last dot,
    unless that dot is the first or the last character. *)
Definition path_suffix (nm : string) : string :=
  match rfind_dot nm with
  | Some i =>
      if bool_decide (0 < i) && bool_decide (i < String.length nm - 1)
      then str_drop i nm else ""
  | None => ""
  end.

(** [PurePath.stem] *)
Definition path_stem (nm : string) : string :=
  str_take (String.length nm - String.length (path_suffix nm)) nm.

(** [p.with_suffix(suf)]: the old suffix of the final component, if any,
    is replaced; otherwise [suf] is appended. *)
Definition with_suffix (p suf : string) : string :=
  let '(d, nm) := path_split p in
  d +:+ path_stem nm +:+ suf.

(** [fnmatch(nm, "*" + suf)] *)
Fixpoint ends_with (suf s : string) : bool :=
  if bool_decide (s = suf) then true
  else match s with
       | "" => false
       | String _ r => ends_with suf r
       end.

(** ** The preset directory *)

(** What a file holds: the complete text of a JSON value, the first [n]
    bytes of one (a proper prefix, left behind by an interrupted write),
    some other text that is not JSON, or bytes that are not text at all
    (they do not decode). *)
Inductive contents : Type :=
  | Complete (doc : py)
  | Torn (doc : py) (n : nat)
  | NotJson (raw : string)
  | NotText (raw : string).

Definition json_dumps (v : py) : contents := Complete v.

(** [json.loads]; bytes that do not decode raise [UnicodeDecodeError]. *)
Definition json_loads (c : contents) : outcome py :=
  match c with
  | Complete v => Ok v
  | Torn _ _ | NotJson _ => Raise JSONDecodeError
  | NotText _ => Raise UnicodeDecodeError
  end.

Abbreviation fs := (gmap string contents).

(** File operations thread the directory; an exception leaves it as it was
    when raised. *)
Definition io (A : Type) : Type := fs → outcome A * fs.

Definition ret {A} (a : A) : io A := λ σ, (Ok a, σ).
Definition lift {A} (m : outcome A) : io A := λ σ, (m, σ).
Definition bind {A B} (m : io A) (k : A → io B) : io B :=
  λ σ, match m σ with
       | (Ok a, σ') => k a σ'
       | (Raise e, σ') => (Raise e, σ')
       | (Untyped, σ') => (Untyped, σ')
       end.

Declare Scope io_scope.
Delimit Scope io_scope with io.
Notation "x <- m ;; k" := (bind m (fun x => k))
  (at level 100, m at next level, right associativity) : io_scope.
Notation "m ;;; k" := (bind m (fun _ => k))
  (at level 100, right associativity) : io_scope.

Definition path_exists (p : string) : io bool :=
  λ σ, (Ok (bool_decide (is_Some (σ !! p))), σ).

(** [p.read_text()]: the bytes have to decode. *)
Definition read_text (p : string) : io contents :=
  λ σ, match σ !! p with
       | Some (NotText _) => (Raise UnicodeDecodeError, σ)
       | Some c => (Ok c, σ)
       | None => (Raise FileNotFoundError, σ)
       end.

Definition write_text (p : string) (c : contents) : io unit :=
  λ σ, (Ok (), <[p := c]> σ).

(** [src.replace(dst)]: one rename. *)
Definition replace_file (src dst : string) : io unit :=
  λ σ, match σ !! src with
       | Some c => (Ok (), <[dst := c]> (delete src σ))
       | None => (Raise FileNotFoundError, σ)
       end.

(** ** storage.py *)

Definition SCHEMA_VERSION : Z := 1.

(** [f"{name}.json"] under [base_dir] *)
Definition preset_path (name : string) : string := name +:+ ".json".

(** The value used as a file name or as a key of [tree_nodes] has to be a
    string to stay within the declared types; a list or a dict is
    unhashable, and no key at all. *)
Definition str_of (v : py) : outcome string :=
  match v with
  | PStr s => Ok s
  | _ => Untyped
  end.

Definition key_of (v : py) : outcome string :=
  match v with
  | PStr s => Ok s
  | PList _ | PDict _ => Raise TypeError
  | _ => Untyped
  end.

(** [base_dir.glob("*.json")]: the direct children whose name matches;
    the children are the regular files whose path has no separator. *)
Definition is_preset_file (k : string) : bool :=
  negb (has_sep k) && ends_with ".json" k.

Definition glob_json : io (list string) :=
  λ σ, (Ok (filter (λ k, is_preset_file k) (elements (dom σ))), σ).

Definition list_presets : io (list string) :=
  (ps <- glob_json ;;
   ret (merge_sort String.le (path_stem <$> ps)))%io.

(** One iteration of the node loop: the [TreeNode(...)] call, its arguments
    evaluated left to right. *)
Definition node_of (nid : string) (nd : py) : outcome TreeNode.t :=
  (nm <- py_getitem nd "name" ;;
   ty <- py_getitem nd "type" ;;
   par <- py_get nd "parent_id" PNone ;;
   ch <- py_get nd "children" (PList []) ;;
   ex <- py_get nd "expanded" (PBool true) ;;
   fi <- py_get nd "field_id" PNone ;;
   Ok (TreeNode.mk nid nm ty par ch ex fi))%out.

Fixpoint load_nodes (items : list (string * py)) (acc : gmap string TreeNode.t)
  : outcome (gmap string TreeNode.t) :=
  match items with
  | [] => Ok acc
  | (nid, nd) :: rest =>
      (n <- node_of nid nd ;; load_nodes rest (<[nid := n]> acc))%out
  end.

(** One iteration of the field loop. *)
Definition field_of (fid : string) (fd : py) : outcome FieldDef.t :=
  (lb <- py_get fd "label" (PStr fid) ;;
   tl <- py_get fd "tags" (PList []) ;;
   tg <- py_set tl ;;
   oi <- py_get fd "origin_index" PNone ;;
   Ok (FieldDef.mk fid lb tg oi))%out.

(** What is left of a run once a value has left the declared types: the
    exception it raises, if any. *)
Definition untyped {A B} (m : outcome A) : outcome B :=
  match m with
  | Raise e => Raise e
  | _ => Untyped
  end.

(** The field loop.  A field whose tags are not strings is built all the
    same, and the loop goes on to the next entry. *)
Fixpoint load_fields (items : list (string * py)) (acc : gmap string FieldDef.t)
  : outcome (gmap string FieldDef.t) :=
  match items with
  | [] => Ok acc
  | (fid, fd) :: rest =>
      match field_of fid fd with
      | Ok f => load_fields rest (<[fid := f]> acc)
      | Raise e => Raise e
      | Untyped => untyped (load_fields rest acc)
      end
  end.

(** [if preset.root_id not in preset.tree_nodes: preset.tree_nodes[...] = ...] *)
Definition ensure_root (preset : Preset.t) : outcome Preset.t :=
  (r <- key_of (Preset.root_id preset) ;;
   if bool_decide (is_Some (Preset.tree_nodes preset !! r)) then Ok preset
   else Ok (Preset.set_tree_nodes preset
              (<[r := root_node r]> (Preset.tree_nodes preset))))%out.

(** The body of [load] after [json.loads]. *)
Definition load_data (name : string) (data : py) : outcome Preset.t :=
  (nm <- py_get data "name" (PStr name) ;;
   device <- py_get data "device" (PStr "") ;;
   baud <- py_get data "baud" (PInt 115200) ;;
   parity <- py_get data "parity" (PStr "N") ;;
   stopbits <- py_get data "stopbits" (PInt 1) ;;
   monitor_secs <- py_get data "monitor_secs" (PInt 3) ;;
   ui_max_preview <- py_get data "ui_max_preview" (PInt 8) ;;
   ui_max_dynamic <- py_get data "ui_max_dynamic" (PInt 3) ;;
   ui_max_help <- py_get data "ui_max_help" (PInt 2) ;;
   root_id <- py_get data "root_id" (PStr "root") ;;
   last_preview <- py_get data "last_preview" PNone ;;
   tn <- py_get data "tree_nodes" (PDict []) ;;
   nitems <- py_items tn ;;
   nodes <- load_nodes nitems ∅ ;;
   fl <- py_get data "fields" (PDict []) ;;
   fitems <- py_items fl ;;
   match load_fields fitems ∅ with
   | Ok flds =>
       ensure_root
         (Preset.mk nm device baud parity stopbits monitor_secs ui_max_preview
            ui_max_dynamic ui_max_help nodes flds root_id last_preview)
   | Raise e => Raise e
   | Untyped => untyped (key_of root_id)
   end)%out.

(** The preset made when no file exists. *)
Definition fresh_preset (name : string) : outcome Preset.t :=
  let preset := Preset.new (PStr name) in
  (r <- key_of (Preset.root_id preset) ;;
   Ok (Preset.set_tree_nodes preset
         (<[r := root_node r]> (Preset.tree_nodes preset))))%out.

Definition load (name : string) : io Preset.t :=
  let p := preset_path name in
  (ex <- path_exists p ;;
   if negb ex then lift (fresh_preset name)
   else
     txt <- read_text p ;;
     data <- lift (json_loads txt) ;;
     lift (load_data name data))%io.

Definition node_data (e : string * TreeNode.t) : string * py :=
  (e.1, PDict [("name", TreeNode.name e.2);
               ("type", TreeNode.type e.2);
               ("parent_id", TreeNode.parent_id e.2);
               ("children", TreeNode.children e.2);
               ("expanded", TreeNode.expanded e.2);
               ("field_id", TreeNode.field_id e.2)]).

Definition field_data (e : string * FieldDef.t) : string * py :=
  (e.1, PDict [("label", FieldDef.label e.2);
               ("tags", PList (PStr <$> sorted (FieldDef.tags e.2)));
               ("origin_index", FieldDef.origin_index e.2)]).

(** The [data] dict of [save]. *)
Definition to_data (preset : Preset.t) : py :=
  PDict [("schema", PInt SCHEMA_VERSION);
         ("name", Preset.name preset);
         ("device", Preset.device preset);
         ("baud", Preset.baud preset);
         ("parity", Preset.parity preset);
         ("stopbits", Preset.stopbits preset);
         ("monitor_secs", Preset.monitor_secs preset);
         ("ui_max_preview", Preset.ui_max_preview preset);
         ("ui_max_dynamic", Preset.ui_max_dynamic preset);
         ("ui_max_help", Preset.ui_max_help preset);
         ("root_id", Preset.root_id preset);
         ("last_preview", Preset.last_preview preset);
         ("tree_nodes", PDict (node_data <$> map_to_list (Preset.tree_nodes preset)));
         ("fields", PDict (field_data <$> map_to_list (Preset.fields preset)))].

Definition tmp_path (p : string) : string := with_suffix p ".json.tmp".

Definition save (preset : Preset.t) : io unit :=
  (nm <- lift (str_of (Preset.name preset)) ;;
   let p := preset_path nm in
   let tmp := tmp_path p in
   let data := to_data preset in
   write_text tmp (json_dumps data) ;;;
   replace_file tmp p)%io.

(** ** Auxiliary definitions used in the statements *)

Fixpoint last_char (s : string) : option ascii :=
  match s with
  | "" => None
  | String c r =>
      match last_char r with
      | Some d => Some d
      | None => Some c
      end
  end.


(** Every node and every field is stored under its own id. *)
Definition coherent (p : Preset.t) : Prop :=
  map_Forall (λ k nd, TreeNode.id nd = k) (Preset.tree_nodes p) ∧
  map_Forall (λ k f, FieldDef.id f = k) (Preset.fields p).

(** The node the loader builds from the object [kvs] once [name] and
    [type] are known. *)
Definition node_from (nid : string) (kvs : list (string * py)) (nm ty : py)
  : TreeNode.t :=
  TreeNode.mk nid nm ty
    (default PNone (dict_get "parent_id" kvs))
    (default (PList []) (dict_get "children" kvs))
    (default (PBool true) (dict_get "expanded" kvs))
    (default PNone (dict_get "field_id" kvs)).

Definition is_dict (v : py) : bool :=
  match v with PDict _ => true | _ => false end.

Definition is_str (v : py) : bool :=
  match v with PStr _ => true | _ => false end.

Definition has_key (k : string) (kvs : list (string * py)) : bool :=
  match dict_get k kvs with Some _ => true | None => false end.

(** A node object with the two required keys. *)
Definition node_ok (nd : py) : bool :=
  match nd with
  | PDict kvs => has_key "name" kvs && has_key "type" kvs
  | _ => false
  end.

(** A field object whose [tags], when present, is an array of strings. *)
Definition field_shaped (fd : py) : bool :=
  match fd with
  | PDict kvs =>
      match dict_get "tags" kvs with
      | None => true
      | Some (PList xs) => forallb is_str xs
      | Some _ => false
      end
  | _ => false
  end.

(** The entries of the document's [tree_nodes] section. *)
Definition doc_nodes (data : py) : list (string * py) :=
  match data with
  | PDict kvs =>
      match dict_get "tree_nodes" kvs with
      | Some (PDict items) => items
      | _ => []
      end
  | _ => []
  end.

(** The document's [root_id], with the loader's default. *)
Definition doc_root (data : py) : py :=
  match data with
  | PDict kvs => default (PStr "root") (dict_get "root_id" kvs)
  | _ => PStr "root"
  end.

(** The documented shape of a preset document, up to missing and extra
    keys: an object; [tree_nodes], when present, an object of objects;
    [fields], when present, an object of field objects; [root_id], when
    present, a string. *)
Definition well_shaped (data : py) : bool :=
  match data with
  | PDict kvs =>
      match dict_get "tree_nodes" kvs with
      | None => true
      | Some (PDict items) => forallb (λ e, is_dict e.2) items
      | Some _ => false
      end
      && match dict_get "fields" kvs with
         | None => true
         | Some (PDict items) => forallb (λ e, field_shaped e.2) items
         | Some _ => false
         end
      && match dict_get "root_id" kvs with
         | None | Some (PStr _) => true
         | Some _ => false
         end
  | _ => false
  end.

Definition some_node_lacks (data : py) : bool :=
  existsb (λ e, negb (node_ok e.2)) (doc_nodes data).

(** A valid preset document: of the documented shape, every node with its
    [name] and [type], and (as in any dict) no node id twice. *)
Definition valid_document (data : py) : bool :=
  well_shaped data
  && forallb (λ e, node_ok e.2) (doc_nodes data)
  && bool_decide (NoDup (doc_nodes data).*1).



(** The run completes without an exception. *)
Definition returns {A} (o : outcome A) : Prop := ∀ e, o ≠ Raise e.




(** A document without a [fields] key; only an object has keys. *)
Definition lacks_fields (data : py) : bool :=
  match data with
  | PDict kvs => negb (has_key "fields" kvs)
  | _ => true
  end.

(** What is said of a file whose document has no [fields] key: [load]
    succeeds, and the preset has no fields. *)
Definition no_fields_contract (σ : fs) (name : string) : Prop :=
  ∀ data,
    σ !! preset_path name = Some (Complete data) →
    lacks_fields data = true →
    returns (load name σ).1 ∧ ∀ p, (load name σ).1 = Ok p → Preset.fields p = ∅.

(** The [tree_nodes] section of the object [kvs] is absent, or an object
    whose entries are objects with [name] and [type]. *)
Definition nodes_loadable (kvs : list (string * py)) : bool :=
  match dict_get "tree_nodes" kvs with
  | None => true
  | Some (PDict items) => forallb (λ e, node_ok e.2) items
  | Some _ => false
  end.

(** The file of [name] is absent, is not JSON, or holds a document of the
    documented shape. *)
Definition shaped_file (σ : fs) (name : string) : bool :=
  match σ !! preset_path name with
  | Some (Complete data) => well_shaped data
  | _ => true
  end.

(** The node that the loader reconstructs for key [nid] from the document
    entry [nd], when [nd] is an object with [name] and [type]. *)
Definition decode_node (nid : string) (nd : py) : option TreeNode.t :=
  match nd with
  | PDict kvs =>
      match dict_get "name" kvs, dict_get "type" kvs with
      | Some nm, Some ty => Some (node_from nid kvs nm ty)
      | _, _ => None
      end
  | _ => None
  end.

(** The preset assembled from the object [kvs] before the root check. *)
Definition preset_of (name : string) (kvs : list (string * py))
    (nodes : gmap string TreeNode.t) (flds : gmap string FieldDef.t) : Preset.t :=
  Preset.mk
    (default (PStr name) (dict_get "name" kvs))
    (default (PStr "") (dict_get "device" kvs))
    (default (PInt 115200) (dict_get "baud" kvs))
    (default (PStr "N") (dict_get "parity" kvs))
    (default (PInt 1) (dict_get "stopbits" kvs))
    (default (PInt 3) (dict_get "monitor_secs" kvs))
    (default (PInt 8) (dict_get "ui_max_preview" kvs))
    (default (PInt 3) (dict_get "ui_max_dynamic" kvs))
    (default (PInt 2) (dict_get "ui_max_help" kvs))
    nodes flds
    (default (PStr "root") (dict_get "root_id" kvs))
    (default PNone (dict_get "last_preview" kvs)).

(** The value of a run that returned. *)
Definition ok_value {A} (m : outcome A) : option A :=
  match m with
  | Ok a => Some a
  | _ => None
  end.

(** ** Sample documents and directories *)

(** A document whose node records an ["id"] that differs from its key. *)
Definition doc_stray_id : py :=
  PDict [("tree_nodes",
          PDict [("n1", PDict [("id", PStr "other");
                               ("name", PStr "Volts");
                               ("type", PStr "field")])])].

(** A document whose [tree_nodes] has no entry for its [root_id]. *)
Definition doc_no_root : py :=
  PDict [("root_id", PStr "top");
         ("tree_nodes",
          PDict [("n1", PDict [("name", PStr "Volts");
                               ("type", PStr "field");
                               ("parent_id", PStr "top")])])].

(** The directory that holds [data] as the file of preset ["bench"]. *)
Definition bench_dir (data : py) : fs := {[ "bench.json" := Complete data ]}.

(** A document without a [fields] section. *)
Definition doc_no_fields : py :=
  PDict [("name", PStr "bench");
         ("tree_nodes",
          PDict [("root", PDict [("name", PStr "Root"); ("type", PStr "branch")])])].

(** A document that names its preset ["field-kit"]. *)
Definition doc_renamed : py :=
  PDict [("name", PStr "field-kit"); ("baud", PInt 9600)].

(** Valid JSON that is not of the documented shape. *)
Definition doc_array : py := PList [].

(** The default preset, and one whose root node records another id. *)
Definition preset_default : Preset.t := Preset.new (PStr "bench").
Definition preset_stray_id : Preset.t :=
  Preset.set_tree_nodes (Preset.new (PStr "bench")) {[ "root" := root_node "r2" ]}.

(** A preset with a root, a field node and a tagged field. *)
Definition preset_sample : Preset.t :=
  Preset.mk (PStr "bench") (PStr "/dev/ttyUSB0") (PInt 9600) (PStr "E") (PInt 2)
    (PInt 5) (PInt 8) (PInt 3) (PInt 2)
    (<[ "root" := TreeNode.mk "root" (PStr "Root") (PStr "branch") PNone
                    (PList [PStr "n1"]) (PBool true) PNone ]>
       {[ "n1" := TreeNode.mk "n1" (PStr "Volts") (PStr "field") (PStr "root")
                    (PList []) (PBool false) (PStr "S1.raw") ]})
    {[ "S1.raw" := FieldDef.mk "S1.raw" (PStr "Sensor 1") (list_to_set ["y"; "x"; "y"])
                     (PInt 0) ]}
    (PStr "root") PNone.

(** ** An interrupted [save]

    [tmp.write_text(text)] opens (creates or truncates) the temporary
    file, writes the text piece by piece and closes it; [tmp.replace(p)]
    is one rename.  A crash stops the run in any state it has reached. *)

Inductive stage : Type :=
  | Begin
  | Writing (n : nat)
  | Written
  | Renamed.

Inductive save_step (tmp p : string) (doc : py) : stage * fs → stage * fs → Prop :=
  | step_open σ :
      save_step tmp p doc (Begin, σ) (Writing 0, <[tmp := Torn doc 0]> σ)
  | step_write σ n m :
      n < m →
      save_step tmp p doc (Writing n, σ) (Writing m, <[tmp := Torn doc m]> σ)
  | step_close σ n :
      save_step tmp p doc (Writing n, σ) (Written, <[tmp := json_dumps doc]> σ)
  | step_replace σ c :
      σ !! tmp = Some c →
      save_step tmp p doc (Written, σ) (Renamed, <[p := c]> (delete tmp σ)).

(** The states a [save] of [preset] goes through from directory [σ0]. *)
Definition save_reaches (preset : Preset.t) (nm : string) (σ0 : fs)
    (st : stage) (σ : fs) : Prop :=
  rtc (save_step (tmp_path (preset_path nm)) (preset_path nm) (to_data preset))
      (Begin, σ0) (st, σ).

(** What holds in each state of a run started in [σ0]: before the rename
    only the temporary file differs from [σ0]. *)
Definition save_inv (tmp p : string) (doc : py) (σ0 : fs) (s : stage * fs) : Prop :=
  match s.1 with
  | Begin => s.2 = σ0
  | Writing n => delete tmp s.2 = delete tmp σ0 ∧ s.2 !! tmp = Some (Torn doc n)
  | Written => delete tmp s.2 = delete tmp σ0 ∧ s.2 !! tmp = Some (Complete doc)
  | Renamed => s.2 = <[p := Complete doc]> (delete tmp σ0)
  end.

(** ** The round-trip law *)

(** The scalar connection and UI settings of two presets agree. *)
Definition same_settings (P Q : Preset.t) : Prop :=
  Preset.device Q = Preset.device P ∧
  Preset.baud Q = Preset.baud P ∧
  Preset.parity Q = Preset.parity P ∧
  Preset.stopbits Q = Preset.stopbits P ∧
  Preset.monitor_secs Q = Preset.monitor_secs P ∧
  Preset.ui_max_preview Q = Preset.ui_max_preview P ∧
  Preset.ui_max_dynamic Q = Preset.ui_max_dynamic P ∧
  Preset.ui_max_help Q = Preset.ui_max_help P ∧
  Preset.root_id Q = Preset.root_id P.

(** The round-trip law for a preset [P] saved into directory [σ]: the save
    succeeds, and loading [P]'s name afterwards gives a preset with [P]'s
    nodes, fields (tags being sets) and settings. *)
Definition roundtrip (σ : fs) (P : Preset.t) : Prop :=
  ∃ nm σ' Q,
    Preset.name P = PStr nm ∧
    save P σ = (Ok (), σ') ∧
    load nm σ' = (Ok Q, σ') ∧
    Preset.tree_nodes Q = Preset.tree_nodes P ∧
    Preset.fields Q = Preset.fields P ∧
    same_settings P Q.


(** A preset file whose one field lists its tags out of order and with a
    repetition. *)
Definition doc_tags_repeated : py :=
  PDict [("fields",
          PDict [("S1.raw",
                  PDict [("label", PStr "Sensor 1");
                         ("tags", PList [PStr "y"; PStr "x"; PStr "y"])])])].

(** The names [list_presets] returns on [σ]. *)
Definition listed (σ : fs) : list string :=
  default [] (ok_value (list_presets σ).1).

(** ** Further definitions used in the statements *)

(** The keys of a document that [load] reads; ["schema"] is not one. *)
Definition read_keys : list string :=
  ["name"; "device"; "baud"; "parity"; "stopbits"; "monitor_secs";
   "ui_max_preview"; "ui_max_dynamic"; "ui_max_help"; "root_id";
   "last_preview"; "tree_nodes"; "fields"].

(** A node, respectively a field, with its id replaced by [k]. *)
Definition rekey_node (k : string) (nd : TreeNode.t) : TreeNode.t :=
  TreeNode.mk k (TreeNode.name nd) (TreeNode.type nd) (TreeNode.parent_id nd)
    (TreeNode.children nd) (TreeNode.expanded nd) (TreeNode.field_id nd).

Definition rekey_field (k : string) (f : FieldDef.t) : FieldDef.t :=
  FieldDef.mk k (FieldDef.label f) (FieldDef.tags f) (FieldDef.origin_index f).


(** * Properties *)

(** ** Strings and paths *)

Lemma last_char_app a b : b ≠ "" → last_char (a +:+ b) = last_char b.
Proof.
  intros Hb. induction a as [|c a IH]; simpl; [done|].
  rewrite IH. destruct b as [|d b]; [done|].
  simpl. by destruct (last_char b).
Qed.

Lemma str_length_app a b :
  String.length (a +:+ b) = String.length a + String.length b.
Proof. induction a; simpl; auto. Qed.

Lemma str_app_inv_tail a b t : a +:+ t = b +:+ t → a = b.
Proof.
  revert b. induction a as [|c a IH]; intros [|d b] H; simpl in *.
  - done.
  - apply (f_equal String.length) in H.
    rewrite ?str_length_app in H. simpl in H. rewrite ?str_length_app in H. lia.
  - apply (f_equal String.length) in H.
    rewrite ?str_length_app in H. simpl in H. rewrite ?str_length_app in H. lia.
  - injection H as -> H. f_equal. by apply IH.
Qed.

Lemma preset_path_inj n m : preset_path n = preset_path m → n = m.
Proof. apply str_app_inv_tail. Qed.

Lemma with_suffix_last_char p suf :
  suf ≠ "" → last_char (with_suffix p suf) = last_char suf.
Proof.
  intros Hs. unfold with_suffix. destruct (path_split p) as [d nm].
  rewrite last_char_app; [by apply last_char_app|].
  destruct (path_stem nm); [done|discriminate].
Qed.

(** The temporary file of a save is never the file of a preset. *)
Lemma tmp_path_not_preset p q : tmp_path p ≠ preset_path q.
Proof.
  intros H. apply (f_equal last_char) in H. unfold tmp_path in H.
  rewrite with_suffix_last_char in H by done.
  unfold preset_path in H. rewrite last_char_app in H by done.
  discriminate.
Qed.

Lemma ends_with_last_char suf s :
  suf ≠ "" → ends_with suf s = true → last_char s = last_char suf.
Proof.
  intros Hs. induction s as [|c s IH]; simpl.
  - case_bool_decide; [by subst|done].
  - case_bool_decide as Heq; [by rewrite <- Heq|].
    intros H. specialize (IH H). rewrite IH.
    destruct suf as [|d suf]; [done|]. simpl. by destruct (last_char suf).
Qed.

(** ... nor is it matched by the glob of [list_presets]. *)
Lemma tmp_path_not_listed p : is_preset_file (tmp_path p) = false.
Proof.
  unfold is_preset_file. apply andb_false_iff. right.
  destruct (ends_with ".json" (tmp_path p)) eqn:E; [|done].
  apply ends_with_last_char in E; [|done].
  unfold tmp_path in E. rewrite with_suffix_last_char in E by done.
  discriminate.
Qed.

Lemma has_sep_app a b : has_sep (a +:+ b) = has_sep a || has_sep b.
Proof. induction a; simpl; [done|]. rewrite IHa. by rewrite orb_assoc. Qed.

Lemma ends_with_app a suf : ends_with suf (a +:+ suf) = true.
Proof.
  induction a as [|c a IH]; simpl.
  - destruct suf; simpl; try case_bool_decide; done.
  - by case_bool_decide.
Qed.

Lemma is_preset_file_path n : has_sep n = false → is_preset_file (preset_path n) = true.
Proof.
  intros H. unfold is_preset_file, preset_path.
  rewrite has_sep_app, H, ends_with_app. done.
Qed.

Lemma rfind_dot_json n : rfind_dot (n +:+ ".json") = Some (String.length n).
Proof. induction n as [|c n IH]; simpl; [done|]. by rewrite IH. Qed.

Lemma substring_0_all s : substring 0 (String.length s) s = s.
Proof. induction s; simpl; [done|]. by f_equal. Qed.

Lemma substring_app_drop a b k :
  substring (String.length a) k (a +:+ b) = substring 0 k b.
Proof. induction a; simpl; auto. Qed.

Lemma substring_app_take a b : substring 0 (String.length a) (a +:+ b) = a.
Proof.
  induction a as [|c a IH]; simpl; [by destruct b|]. by f_equal.
Qed.

(** The stem of a preset file is the preset's name. *)
Lemma path_stem_preset_path n : n ≠ "" → path_stem (preset_path n) = n.
Proof.
  intros Hn. unfold path_stem, path_suffix, preset_path.
  rewrite rfind_dot_json, str_length_app. simpl.
  assert (0 < String.length n) by (destruct n; [done|simpl; lia]).
  rewrite !bool_decide_eq_true_2 by lia. simpl.
  unfold str_drop. rewrite str_length_app. simpl.
  replace (String.length n + 5 - String.length n) with 5 by lia.
  rewrite substring_app_drop. simpl.
  replace (String.length n + 5 - 5) with (String.length n) by lia.
  apply substring_app_take.
Qed.

(** ** The loader *)

Lemma dict_get_None {V} k (l : list (string * V)) :
  dict_get k l = None ↔ k ∉ l.*1.
Proof.
  induction l as [|[k' v] l IH]; simpl.
  - split; [intros _; apply not_elem_of_nil | done].
  - rewrite not_elem_of_cons. case_decide as Hk.
    + split; [done | by intros [? _]].
    + rewrite IH. split; [done | by intros [_ ?]].
Qed.

Lemma load_absent σ name :
  σ !! preset_path name = None →
  load name σ =
    (Ok (Preset.set_tree_nodes (Preset.new (PStr name))
           {[ "root" := root_node "root" ]}), σ).
Proof.
  intros H. unfold load, bind, path_exists. rewrite H.
  rewrite bool_decide_eq_false_2 by (by intros [? ?]). done.
Qed.

Lemma load_present σ name c :
  σ !! preset_path name = Some c →
  load name σ = (obind (json_loads c) (load_data name), σ).
Proof.
  intros H. unfold load, bind, path_exists, read_text, lift. rewrite H.
  rewrite bool_decide_eq_true_2 by eauto. simpl. rewrite H.
  by destruct c.
Qed.

Lemma load_keeps_fs σ name : (load name σ).2 = σ.
Proof.
  destruct (σ !! preset_path name) as [c|] eqn:E.
  - by rewrite (load_present _ _ _ E).
  - by rewrite (load_absent _ _ E).
Qed.

(** C4: when no file exists for [name], [load] returns, leaves the
    directory as it was, and the preset it returns is named [name] and has
    exactly one node: it is stored under [root_id], carries that id, and is
    a branch without parent, without children, and expanded. *)
Theorem load_missing_file_fresh_root (σ : fs) (name : string) :
  σ !! preset_path name = None →
  ∃ p r nd,
    load name σ = (Ok p, σ) ∧
    Preset.name p = PStr name ∧
    Preset.root_id p = PStr r ∧
    Preset.tree_nodes p = {[ r := nd ]} ∧
    TreeNode.id nd = r ∧
    TreeNode.type nd = PStr "branch" ∧
    TreeNode.parent_id nd = PNone ∧
    TreeNode.children nd = PList [] ∧
    TreeNode.expanded nd = PBool true.
Proof.
  intros H. eexists _, "root", (root_node "root").
  rewrite (load_absent _ _ H). repeat split.
Qed.

Lemma load_missing_file_fresh_root_witness :
  ∃ p r nd,
    load "lab" (<[ "bench.json" := NotJson "{" ]> ∅) =
      (Ok p, <[ "bench.json" := NotJson "{" ]> ∅) ∧
    Preset.name p = PStr "lab" ∧
    Preset.root_id p = PStr r ∧
    Preset.tree_nodes p = {[ r := nd ]} ∧
    TreeNode.id nd = r ∧
    TreeNode.type nd = PStr "branch" ∧
    TreeNode.parent_id nd = PNone ∧
    TreeNode.children nd = PList [] ∧
    TreeNode.expanded nd = PBool true.
Proof.
  apply (load_missing_file_fresh_root (<[ "bench.json" := NotJson "{" ]> ∅) "lab").
  vm_compute. reflexivity.
Defined.

Lemma node_of_dict nid kvs :
  node_of nid (PDict kvs) =
    match dict_get "name" kvs, dict_get "type" kvs with
    | Some nm, Some ty => Ok (node_from nid kvs nm ty)
    | None, _ => Raise (KeyError "name")
    | Some _, None => Raise (KeyError "type")
    end.
Proof.
  unfold node_of, py_getitem.
  destruct (dict_get "name" kvs); [|done]. simpl.
  by destruct (dict_get "type" kvs).
Qed.

Lemma node_of_not_dict nid nd : is_dict nd = false → node_of nid nd = Raise TypeError.
Proof. by destruct nd. Qed.

Lemma node_of_decode nid nd n : node_of nid nd = Ok n ↔ decode_node nid nd = Some n.
Proof.
  destruct nd as [| | | | | |kvs]; try (split; discriminate).
  rewrite node_of_dict. simpl.
  destruct (dict_get "name" kvs), (dict_get "type" kvs);
    split; intros H; try discriminate; by simplify_eq.
Qed.

Lemma node_of_id nid nd n : node_of nid nd = Ok n → TreeNode.id n = nid.
Proof.
  rewrite node_of_decode. destruct nd as [| | | | | |kvs]; try discriminate.
  simpl. destruct (dict_get "name" kvs), (dict_get "type" kvs);
    intros H; simplify_eq. done.
Qed.

Lemma node_ok_decode nid nd : node_ok nd = true ↔ is_Some (decode_node nid nd).
Proof.
  destruct nd as [| | | | | |kvs]; simpl;
    try (split; [discriminate | by intros [? ?]]).
  unfold has_key.
  destruct (dict_get "name" kvs), (dict_get "type" kvs); simpl;
    split; try discriminate; try (by intros [? ?]); eauto.
Qed.

Lemma field_of_id fid fd f : field_of fid fd = Ok f → FieldDef.id f = fid.
Proof.
  unfold field_of. destruct fd as [| | | | | |kvs]; try discriminate.
  simpl. destruct (py_set _); simpl; intros H; by simplify_eq.
Qed.

Lemma load_nodes_coherent items acc m :
  map_Forall (λ k nd, TreeNode.id nd = k) acc →
  load_nodes items acc = Ok m →
  map_Forall (λ k nd, TreeNode.id nd = k) m.
Proof.
  revert acc. induction items as [|[nid nd] items IH]; intros acc Hacc; simpl.
  - intros H. by simplify_eq.
  - destruct (node_of nid nd) as [n| |] eqn:E; simpl; try discriminate.
    apply IH. apply map_Forall_insert_2; [|done]. by eapply node_of_id.
Qed.

Lemma untyped_not_ok {A B} (m : outcome A) (b : B) : untyped m ≠ Ok b.
Proof. by destruct m. Qed.

Lemma load_fields_coherent items acc m :
  map_Forall (λ k f, FieldDef.id f = k) acc →
  load_fields items acc = Ok m →
  map_Forall (λ k f, FieldDef.id f = k) m.
Proof.
  revert acc. induction items as [|[fid fd] items IH]; intros acc Hacc; simpl.
  - intros H. by simplify_eq.
  - destruct (field_of fid fd) as [f| |] eqn:E; simpl; try discriminate.
    + apply IH. apply map_Forall_insert_2; [|done]. by eapply field_of_id.
    + intros H. by apply untyped_not_ok in H.
Qed.

(** With distinct keys, each entry of the section ends up under its key. *)
Lemma load_nodes_lookup items acc m :
  NoDup items.*1 →
  load_nodes items acc = Ok m →
  ∀ k, m !! k = match dict_get k items with
                | Some nd => decode_node k nd
                | None => acc !! k
                end.
Proof.
  revert acc. induction items as [|[nid nd] items IH]; intros acc Hnd; simpl.
  - intros H k. by simplify_eq.
  - rewrite fmap_cons in Hnd. simpl in Hnd. apply NoDup_cons in Hnd as [Hnid Hnd].
    destruct (node_of nid nd) as [n| |] eqn:E; simpl; try discriminate.
    intros H k. rewrite (IH _ Hnd H k). case_decide as Hk.
    + subst k. apply dict_get_None in Hnid. rewrite Hnid, lookup_insert_eq.
      symmetry. by apply node_of_decode.
    + destruct (dict_get k items); [done|]. by rewrite lookup_insert_ne.
Qed.

Lemma load_nodes_all_ok items acc :
  forallb (λ e, node_ok e.2) items = true → ∃ m, load_nodes items acc = Ok m.
Proof.
  revert acc. induction items as [|[nid nd] items IH]; intros acc; simpl.
  - eauto.
  - intros [Hn Hr]%andb_true_iff.
    apply (node_ok_decode nid) in Hn as [n Hn]. apply node_of_decode in Hn.
    rewrite Hn. simpl. by apply IH.
Qed.

Lemma load_nodes_lacks items acc :
  forallb (λ e, is_dict e.2) items = true →
  existsb (λ e, negb (node_ok e.2)) items = true →
  ∃ k, load_nodes items acc = Raise (KeyError k).
Proof.
  revert acc. induction items as [|[nid nd] items IH]; intros acc; simpl.
  - discriminate.
  - intros [Hd Hr]%andb_true_iff. destruct nd as [| | | | | |kvs]; try discriminate.
    rewrite node_of_dict. simpl. unfold has_key.
    destruct (dict_get "name" kvs); simpl; [|eauto].
    destruct (dict_get "type" kvs); simpl; [|eauto].
    intros H. by apply IH.
Qed.

Lemma all_str_strings xs :
  forallb is_str xs = true → forallb hashable xs = true ∧ is_Some (all_str xs).
Proof.
  induction xs as [|x xs IH]; simpl; [eauto|].
  intros [Hx Hr]%andb_true_iff. destruct x; try discriminate.
  destruct (IH Hr) as [-> [ss ->]]. simpl. eauto.
Qed.

Lemma field_of_shaped fid fd :
  field_shaped fd = true → ∃ f, field_of fid fd = Ok f.
Proof.
  destruct fd as [| | | | | |kvs]; try discriminate. simpl.
  unfold field_of, py_get. simpl.
  destruct (dict_get "tags" kvs) as [t|]; simpl; [|eauto].
  destruct t as [| | | | |xs|]; try discriminate.
  intros [Hh [ss Hs]]%all_str_strings. simpl. rewrite Hh, Hs. simpl. eauto.
Qed.

Lemma load_fields_shaped items acc :
  forallb (λ e, field_shaped e.2) items = true → ∃ m, load_fields items acc = Ok m.
Proof.
  revert acc. induction items as [|[fid fd] items IH]; intros acc; simpl.
  - eauto.
  - intros [Hf Hr]%andb_true_iff.
    destruct (field_of_shaped fid fd Hf) as [f ->]. simpl. by apply IH.
Qed.

Lemma load_data_dict name kvs :
  load_data name (PDict kvs) =
    (nitems <- py_items (default (PDict []) (dict_get "tree_nodes" kvs)) ;;
     nodes <- load_nodes nitems ∅ ;;
     fitems <- py_items (default (PDict []) (dict_get "fields" kvs)) ;;
     match load_fields fitems ∅ with
     | Ok flds => ensure_root (preset_of name kvs nodes flds)
     | Raise e => Raise e
     | Untyped => untyped (key_of (default (PStr "root") (dict_get "root_id" kvs)))
     end)%out.
Proof. reflexivity. Qed.

Lemma load_data_not_dict name data :
  is_dict data = false → load_data name data = Raise AttributeError.
Proof. by destruct data. Qed.

Lemma load_data_inv name data p :
  load_data name data = Ok p →
  ∃ kvs nitems nodes fitems flds,
    data = PDict kvs ∧
    py_items (default (PDict []) (dict_get "tree_nodes" kvs)) = Ok nitems ∧
    load_nodes nitems ∅ = Ok nodes ∧
    py_items (default (PDict []) (dict_get "fields" kvs)) = Ok fitems ∧
    load_fields fitems ∅ = Ok flds ∧
    ensure_root (preset_of name kvs nodes flds) = Ok p.
Proof.
  destruct data as [| | | | | |kvs]; try discriminate.
  rewrite load_data_dict.
  destruct (py_items (default _ (dict_get "tree_nodes" kvs))) as [nitems| |] eqn:E1;
    simpl; try discriminate.
  destruct (load_nodes nitems ∅) as [nodes| |] eqn:E2; simpl; try discriminate.
  destruct (py_items (default _ (dict_get "fields" kvs))) as [fitems| |] eqn:E3;
    simpl; try discriminate.
  destruct (load_fields fitems ∅) as [flds| |] eqn:E4; simpl; try discriminate;
    [|intros H; by apply untyped_not_ok in H].
  intros H. by eexists kvs, nitems, nodes, fitems, flds.
Qed.

Lemma ensure_root_str preset r :
  Preset.root_id preset = PStr r →
  ensure_root preset =
    Ok (if bool_decide (is_Some (Preset.tree_nodes preset !! r)) then preset
        else Preset.set_tree_nodes preset
               (<[r := root_node r]> (Preset.tree_nodes preset))).
Proof. intros H. unfold ensure_root. rewrite H. simpl. by case_bool_decide. Qed.

Lemma ensure_root_inv preset p :
  ensure_root preset = Ok p →
  ∃ r, Preset.root_id preset = PStr r ∧ Preset.root_id p = PStr r ∧
       is_Some (Preset.tree_nodes p !! r) ∧
       Preset.fields p = Preset.fields preset ∧
       Preset.name p = Preset.name preset ∧
       (Preset.tree_nodes p = Preset.tree_nodes preset ∨
        Preset.tree_nodes p = <[r := root_node r]> (Preset.tree_nodes preset)).
Proof.
  unfold ensure_root. destruct (Preset.root_id preset) eqn:E; try discriminate.
  simpl. case_bool_decide as Hr; intros H; simplify_eq; exists s.
  - rewrite E. auto 10.
  - simpl. rewrite lookup_insert_eq. eauto 10.
Qed.

Lemma load_ok_inv σ name p σ' :
  load name σ = (Ok p, σ') →
  σ' = σ ∧
  ((σ !! preset_path name = None ∧
    p = Preset.set_tree_nodes (Preset.new (PStr name)) {[ "root" := root_node "root" ]})
   ∨ (∃ data, σ !! preset_path name = Some (Complete data) ∧
              load_data name data = Ok p)).
Proof.
  destruct (σ !! preset_path name) as [c|] eqn:E.
  - rewrite (load_present _ _ _ E). intros H. injection H as H ->.
    split; [done|]. right. destruct c as [data| | |]; try discriminate. eauto.
  - rewrite (load_absent _ _ E). intros H. injection H as <- ->. auto.
Qed.

Lemma load_data_coherent name data p : load_data name data = Ok p → coherent p.
Proof.
  intros (kvs & nitems & nodes & fitems & flds & -> & _ & Hn & _ & Hf & Hr)%load_data_inv.
  apply load_nodes_coherent in Hn; [|apply map_Forall_empty].
  apply load_fields_coherent in Hf; [|apply map_Forall_empty].
  apply ensure_root_inv in Hr as (r & _ & _ & _ & Hflds & _ & Hnodes).
  split.
  - destruct Hnodes as [-> | ->]; [done|]. by apply map_Forall_insert_2.
  - by rewrite Hflds.
Qed.

(** C10: a preset returned by [load] stores every node and every field
    under its own id; the loader takes the id from the key, whatever the
    node or field object records under ["id"]; and the objects [save] writes
    have no ["id"] entry. *)
Theorem load_key_id_coherent (σ σ' : fs) (name : string) (p : Preset.t) :
  load name σ = (Ok p, σ') →
  coherent p
  ∧ (∀ nid kvs kvs',
       (∀ k, k ≠ "id" → dict_get k kvs = dict_get k kvs') →
       node_of nid (PDict kvs) = node_of nid (PDict kvs'))
  ∧ (∀ fid kvs kvs',
       (∀ k, k ≠ "id" → dict_get k kvs = dict_get k kvs') →
       field_of fid (PDict kvs) = field_of fid (PDict kvs'))
  ∧ (∀ e, ∃ kvs, (node_data e).2 = PDict kvs ∧ dict_get "id" kvs = None)
  ∧ (∀ e, ∃ kvs, (field_data e).2 = PDict kvs ∧ dict_get "id" kvs = None).
Proof.
  intros H. split; [|split; [|split; [|split]]].
  - apply load_ok_inv in H as [_ [[_ ->] | (data & _ & H)]].
    + split; [|apply map_Forall_empty]. simpl.
      by apply map_Forall_singleton.
    + by eapply load_data_coherent.
  - intros nid kvs kvs' Hk. rewrite !node_of_dict. unfold node_from.
    by rewrite !Hk by done.
  - intros fid kvs kvs' Hk. unfold field_of, py_get. by rewrite !Hk by done.
  - intros e. eexists. split; [reflexivity|done].
  - intros e. eexists. split; [reflexivity|done].
Qed.

Lemma load_key_id_coherent_witness :
  ∃ p,
    load "bench" (bench_dir doc_stray_id) = (Ok p, bench_dir doc_stray_id)
    ∧ coherent p
    ∧ TreeNode.id <$> Preset.tree_nodes p !! "n1" = Some "n1".
Proof.
  eexists. split; [vm_compute; reflexivity|]. split.
  - refine (proj1 (load_key_id_coherent (bench_dir doc_stray_id) _ "bench" _ _)).
    vm_compute. reflexivity.
  - vm_compute. reflexivity.
Defined.

(** ** Documents of the documented shape *)

Lemma existsb_negb_false {A} (f : A → bool) l :
  existsb (λ x, negb (f x)) l = false ↔ forallb f l = true.
Proof.
  induction l as [|x l IH]; simpl; [done|].
  rewrite orb_false_iff, andb_true_iff, IH, negb_false_iff. done.
Qed.

Lemma well_shaped_parts data :
  well_shaped data = true →
  ∃ kvs fitems r,
    data = PDict kvs ∧
    py_items (default (PDict []) (dict_get "tree_nodes" kvs)) = Ok (doc_nodes data) ∧
    forallb (λ e, is_dict e.2) (doc_nodes data) = true ∧
    py_items (default (PDict []) (dict_get "fields" kvs)) = Ok fitems ∧
    forallb (λ e, field_shaped e.2) fitems = true ∧
    (dict_get "fields" kvs = None → fitems = []) ∧
    doc_root data = PStr r.
Proof.
  destruct data as [| | | | | |kvs]; try discriminate. simpl.
  intros [[Hn Hf]%andb_true_iff Hr]%andb_true_iff.
  assert (∃ fitems,
    py_items (default (PDict []) (dict_get "fields" kvs)) = Ok fitems ∧
    forallb (λ e, field_shaped e.2) fitems = true ∧
    (dict_get "fields" kvs = None → fitems = [])) as (fitems & ? & ? & ?).
  { destruct (dict_get "fields" kvs) as [[| | | | | |items]|]; try discriminate;
      simpl; eauto. eexists. split; [done|]. split; [done|]. discriminate. }
  assert (∃ r, default (PStr "root") (dict_get "root_id" kvs) = PStr r) as [r ?].
  { destruct (dict_get "root_id" kvs) as [[]|]; try discriminate; simpl; eauto. }
  exists kvs, fitems, r.
  destruct (dict_get "tree_nodes" kvs) as [[| | | | | |items]|]; try discriminate;
    simpl; auto 10.
Qed.

(** What [load] makes of a document of the documented shape. *)
Lemma well_shaped_load_data name data :
  well_shaped data = true →
  if some_node_lacks data
  then ∃ k, load_data name data = Raise (KeyError k)
  else ∃ kvs nodes flds r,
         data = PDict kvs ∧
         load_nodes (doc_nodes data) ∅ = Ok nodes ∧
         doc_root data = PStr r ∧
         (dict_get "fields" kvs = None → flds = ∅) ∧
         ensure_root (preset_of name kvs nodes flds) =
           Ok (if bool_decide (is_Some (nodes !! r))
               then preset_of name kvs nodes flds
               else Preset.set_tree_nodes (preset_of name kvs nodes flds)
                      (<[r := root_node r]> nodes)) ∧
         load_data name data = ensure_root (preset_of name kvs nodes flds).
Proof.
  intros (kvs & fitems & r & -> & Hni & Hd & Hfi & Hfs & Hfe & Hr)%well_shaped_parts.
  unfold some_node_lacks. rewrite load_data_dict, Hni.
  generalize dependent (doc_nodes (PDict kvs)). intros items _ Hd.
  cbn [obind].
  destruct (existsb _ items) eqn:E.
  - destruct (load_nodes_lacks _ ∅ Hd E) as [k ->]. eauto.
  - apply existsb_negb_false in E.
    destruct (load_nodes_all_ok _ ∅ E) as [nodes Hn]. rewrite Hn, Hfi. cbn [obind].
    destruct (load_fields_shaped _ ∅ Hfs) as [flds Hf]. rewrite Hf. cbn [obind].
    exists kvs, nodes, flds, r. repeat split; try done.
    + intros Hnone. rewrite (Hfe Hnone) in Hf. simpl in Hf. by simplify_eq.
    + by apply ensure_root_str.
Qed.

Lemma dict_get_Some_elem {V} k (v : V) l : dict_get k l = Some v → (k, v) ∈ l.
Proof.
  induction l as [|[k' v'] l IH]; simpl; [done|].
  case_decide as Hk; intros Hv; simplify_eq; [left | right; auto].
Qed.

Lemma valid_document_load name data :
  valid_document data = true →
  ∃ kvs nodes flds r,
    data = PDict kvs ∧
    doc_root data = PStr r ∧
    (∀ k, nodes !! k = dict_get k (doc_nodes data) ≫= decode_node k) ∧
    (∀ k nd, dict_get k (doc_nodes data) = Some nd → is_Some (decode_node k nd)) ∧
    (dict_get "fields" kvs = None → flds = ∅) ∧
    load_data name data =
      Ok (if bool_decide (is_Some (nodes !! r))
          then preset_of name kvs nodes flds
          else Preset.set_tree_nodes (preset_of name kvs nodes flds)
                 (<[r := root_node r]> nodes)).
Proof.
  unfold valid_document.
  intros [[Hs Hok]%andb_true_iff Hnd%bool_decide_eq_true]%andb_true_iff.
  pose proof (well_shaped_load_data name data Hs) as H.
  unfold some_node_lacks in H.
  rewrite (proj2 (existsb_negb_false _ _) Hok) in H.
  destruct H as (kvs & nodes & flds & r & -> & Hn & Hr & Hf & He & Hl).
  exists kvs, nodes, flds, r. repeat split; try done.
  - intros k. rewrite (load_nodes_lookup _ _ _ Hnd Hn k).
    destruct (dict_get k _); [done|]. by rewrite lookup_empty.
  - intros k nd Hk%dict_get_Some_elem.
    apply (node_ok_decode k). rewrite forallb_forall in Hok.
    apply (Hok (k, nd)). by apply list_elem_of_In.
  - by rewrite Hl.
Qed.

(** C5: for a valid document whose [tree_nodes] section has no entry for
    the document's [root_id], [load] returns a preset in which the default
    root (a branch named "Root", no parent, no children) is stored under
    [root_id] and every other key holds exactly the node reconstructed
    from its entry of the document; and whatever preset [load] returns has
    its [root_id] among the keys of [tree_nodes]. *)
Theorem load_inserts_missing_root (σ : fs) (name : string) (data : py) (r : string) :
  σ !! preset_path name = Some (Complete data) →
  valid_document data = true →
  doc_root data = PStr r →
  dict_get r (doc_nodes data) = None →
  (∃ p,
     load name σ = (Ok p, σ) ∧
     Preset.root_id p = PStr r ∧
     Preset.tree_nodes p !! r =
       Some (TreeNode.mk r (PStr "Root") (PStr "branch") PNone (PList []) (PBool true) PNone) ∧
     (∀ k, k ≠ r →
        Preset.tree_nodes p !! k = dict_get k (doc_nodes data) ≫= decode_node k) ∧
     (∀ k nd, dict_get k (doc_nodes data) = Some nd → is_Some (decode_node k nd)))
  ∧ (∀ (σ0 σ1 : fs) n0 p0,
       load n0 σ0 = (Ok p0, σ1) →
       ∃ r0, Preset.root_id p0 = PStr r0 ∧ is_Some (Preset.tree_nodes p0 !! r0)).
Proof.
  intros Hfile Hv Hr Hnone. split.
  - destruct (valid_document_load name data Hv)
      as (kvs & nodes & flds & r' & -> & Hr' & Hlook & Hdec & _ & Hl).
    rewrite Hr in Hr'. injection Hr' as <-.
    rewrite (load_present _ _ _ Hfile). simpl. rewrite Hl.
    assert (nodes !! r = None) as Hnr by (by rewrite Hlook, Hnone).
    rewrite bool_decide_eq_false_2 by (rewrite Hnr; by intros [? ?]).
    eexists. split; [done|]. simpl. repeat split.
    + exact Hr.
    + by rewrite lookup_insert_eq.
    + intros k Hk. rewrite lookup_insert_ne by done. apply Hlook.
    + exact Hdec.
  - intros σ0 σ1 n0 p0 H.
    apply load_ok_inv in H as [_ [[_ ->] | (d & _ & H)]].
    + exists "root". split; [done|]. simpl. rewrite lookup_singleton_eq. eauto.
    + apply load_data_inv in H as (? & ? & ? & ? & ? & _ & _ & _ & _ & _ & H).
      apply ensure_root_inv in H as (r0 & _ & ? & ? & _). eauto.
Qed.

Lemma load_inserts_missing_root_witness :
  ∃ p,
    load "bench" (bench_dir doc_no_root) = (Ok p, bench_dir doc_no_root)
    ∧ Preset.root_id p = PStr "top"
    ∧ Preset.tree_nodes p !! "top" =
        Some (TreeNode.mk "top" (PStr "Root") (PStr "branch") PNone (PList []) (PBool true) PNone)
    ∧ TreeNode.name <$> Preset.tree_nodes p !! "n1" = Some (PStr "Volts").
Proof.
  destruct (load_inserts_missing_root (bench_dir doc_no_root) "bench" doc_no_root "top")
    as [(p & H1 & H2 & H3 & H4 & _) _].
  - vm_compute. reflexivity.
  - vm_compute. reflexivity.
  - vm_compute. reflexivity.
  - vm_compute. reflexivity.
  - exists p. repeat split; try done.
    rewrite (H4 "n1") by done. vm_compute. reflexivity.
Defined.

Lemma dict_get_app_other {V} k k' (v : V) kvs :
  k ≠ k' → dict_get k (kvs ++ [(k', v)]) = dict_get k kvs.
Proof.
  intros Hk. induction kvs as [|[k0 v0] kvs IH]; simpl.
  - by rewrite decide_False.
  - by rewrite IH.
Qed.

Lemma dict_get_app_new {V} k (v : V) kvs :
  dict_get k kvs = None → dict_get k (kvs ++ [(k, v)]) = Some v.
Proof.
  induction kvs as [|[k0 v0] kvs IH]; simpl.
  - by rewrite decide_True.
  - case_decide; [done|]. exact IH.
Qed.

(** The node loop either builds every node, or raises at an entry that is
    not an object with [name] and [type]. *)
Lemma load_nodes_cases items acc :
  (forallb (λ e, node_ok e.2) items = true ∧ ∃ m, load_nodes items acc = Ok m)
  ∨ (existsb (λ e, negb (node_ok e.2)) items = true ∧
     ∃ e, load_nodes items acc = Raise e ∧ (e = TypeError ∨ ∃ k, e = KeyError k)).
Proof.
  revert acc. induction items as [|[nid nd] items IH]; intros acc; simpl.
  - left. eauto.
  - destruct (node_ok nd) eqn:Hn; simpl.
    + apply (node_ok_decode nid) in Hn as [n Hn]. apply node_of_decode in Hn.
      rewrite Hn. simpl. apply IH.
    + right. split; [done|]. destruct nd as [| | | | | |kvs]; try (by eauto).
      rewrite node_of_dict. simpl in Hn. unfold has_key in Hn.
      destruct (dict_get "name" kvs); [|by eauto].
      destruct (dict_get "type" kvs); [discriminate|by eauto].
Qed.

Lemma returns_ok {A} (a : A) : returns (Ok a).
Proof. intros e. discriminate. Qed.

Lemma returns_untyped {A} : returns (@Untyped A).
Proof. intros e. discriminate. Qed.

Lemma not_returns_raise {A} (e : exn) : ¬ returns (@Raise A e).
Proof. intros H. by apply (H e). Qed.

Lemma ensure_root_returns preset :
  returns (ensure_root preset) ↔ hashable (Preset.root_id preset) = true.
Proof.
  unfold ensure_root. destruct (Preset.root_id preset); simpl;
    try case_bool_decide;
    split; try done; try (intros; apply returns_ok); try (intros; apply returns_untyped);
    intros H; by apply not_returns_raise in H.
Qed.

(** [load] on an object without a [fields] key. *)
Lemma load_data_no_fields name kvs :
  dict_get "fields" kvs = None →
  load_data name (PDict kvs) =
    (nitems <- py_items (default (PDict []) (dict_get "tree_nodes" kvs)) ;;
     nodes <- load_nodes nitems ∅ ;;
     ensure_root (preset_of name kvs nodes ∅))%out.
Proof.
  intros H. rewrite load_data_dict, H. simpl.
  destruct (py_items _); simpl; [|done..].
  by destruct (load_nodes _ _).
Qed.

(** C8, as amended: when the document of the file is an object without a
    [fields] key, [load] returns exactly when the rest of the document
    loads, that is, when [tree_nodes] is absent or an object whose entries
    are objects with [name] and [type] and [root_id] is absent or hashable;
    with a string (or no) [root_id] it then returns a typed preset, and any
    preset it returns has no fields; and [load] does exactly what it does
    on the same document with an empty [fields] section added, so that the
    absence of the section is never itself an error. *)
Theorem load_without_fields_section (σ : fs) (name : string) (kvs : list (string * py)) :
  σ !! preset_path name = Some (Complete (PDict kvs)) →
  dict_get "fields" kvs = None →
  (returns (load name σ).1 ↔
     nodes_loadable kvs = true ∧
     hashable (default (PStr "root") (dict_get "root_id" kvs)) = true)
  ∧ (nodes_loadable kvs = true →
     is_str (default (PStr "root") (dict_get "root_id" kvs)) = true →
     ∃ p, load name σ = (Ok p, σ) ∧ Preset.fields p = ∅)
  ∧ (∀ p σ', load name σ = (Ok p, σ') → Preset.fields p = ∅)
  ∧ (load name σ).1 =
      (load name (<[preset_path name :=
                     Complete (PDict (kvs ++ [("fields", PDict [])]))]> σ)).1.
Proof.
  intros Hfile Hnone.
  assert (∀ p, load_data name (PDict kvs) = Ok p → Preset.fields p = ∅) as Hempty.
  { intros p (? & ? & ? & fitems & flds & [= <-] & _ & _ & Hfi & Hf & Hr)%load_data_inv.
    rewrite Hnone in Hfi. simpl in Hfi. injection Hfi as <-. simpl in Hf.
    injection Hf as <-.
    by apply ensure_root_inv in Hr as (? & _ & _ & _ & -> & _). }
  pose proof (load_present _ _ _ Hfile) as Hload. cbn [json_loads obind] in Hload.
  split; [|split; [|split]].
  - rewrite Hload. cbn [fst]. rewrite (load_data_no_fields _ _ Hnone).
    unfold nodes_loadable.
    destruct (dict_get "tree_nodes" kvs) as [[| | | | | |items]|]; simpl;
      try (split; [intros H; by apply not_returns_raise in H | by intros [? _]]).
    + destruct (load_nodes_cases items ∅) as [[Hok [m ->]] | [Hl (e & -> & _)]]; simpl.
      * rewrite ensure_root_returns. simpl. rewrite Hok.
        split; [by intros ? | by intros [_ ?]].
      * split; [intros H; by apply not_returns_raise in H|].
        intros [Hok _]. apply existsb_negb_false in Hok. congruence.
    + rewrite ensure_root_returns. simpl.
      split; [by intros ? | by intros [_ ?]].
  - intros Hn Hs. rewrite Hload. rewrite (load_data_no_fields _ _ Hnone).
    assert (∃ nodes, (nitems <- py_items (default (PDict []) (dict_get "tree_nodes" kvs)) ;;
                      load_nodes nitems ∅)%out = Ok nodes) as [nodes Hnodes].
    { unfold nodes_loadable in Hn.
      destruct (dict_get "tree_nodes" kvs) as [[| | | | | |items]|]; try discriminate;
        simpl; [|eauto].
      by apply load_nodes_all_ok. }
    assert (∃ r, default (PStr "root") (dict_get "root_id" kvs) = PStr r) as [r Hr].
    { destruct (default _ (dict_get "root_id" kvs)); try discriminate. eauto. }
    assert (load_data name (PDict kvs) = ensure_root (preset_of name kvs nodes ∅)) as Hl.
    { rewrite (load_data_no_fields _ _ Hnone).
      destruct (py_items _); simpl in *; try discriminate. by rewrite Hnodes. }
    rewrite <- (load_data_no_fields _ _ Hnone), Hl.
    rewrite (ensure_root_str _ r) by done.
    eexists. split; [done|]. apply Hempty. rewrite Hl.
    by rewrite (ensure_root_str _ r).
  - intros p σ' H. apply load_ok_inv in H as [_ [[H _] | (d & Hd & H)]].
    + by rewrite Hfile in H.
    + rewrite Hfile in Hd. injection Hd as <-. by apply Hempty.
  - rewrite Hload.
    rewrite (load_present _ _ (Complete (PDict (kvs ++ [("fields", PDict [])]))))
      by apply lookup_insert_eq.
    simpl. rewrite !load_data_dict.
    rewrite (dict_get_app_new _ _ _ Hnone), Hnone.
    rewrite !dict_get_app_other by done.
    unfold preset_of. by rewrite !dict_get_app_other by done.
Qed.

Lemma load_without_fields_section_witness :
  ∃ p, load "bench" (bench_dir doc_no_fields) = (Ok p, bench_dir doc_no_fields)
       ∧ Preset.fields p = ∅.
Proof.
  destruct (load_without_fields_section (bench_dir doc_no_fields) "bench"
              [("name", PStr "bench");
               ("tree_nodes",
                PDict [("root", PDict [("name", PStr "Root"); ("type", PStr "branch")])])])
    as (_ & H & _); [vm_compute; reflexivity..|].
  apply H; vm_compute; reflexivity.
Defined.

(** C8, as stated, fails: valid JSON without a [fields] key need not load.
    A top-level array and a [null] [tree_nodes] raise [AttributeError], a
    node without a name raises [KeyError], and a [root_id] that is an
    array raises [TypeError] when it is looked up among the nodes. *)
Lemma load_without_fields_counterexample :
  ¬ no_fields_contract (bench_dir doc_array) "bench"
  ∧ ¬ no_fields_contract (bench_dir (PDict [("tree_nodes", PNone)])) "bench"
  ∧ ¬ no_fields_contract
        (bench_dir (PDict [("tree_nodes", PDict [("n1", PDict [("type", PStr "field")])])]))
        "bench"
  ∧ ¬ no_fields_contract (bench_dir (PDict [("root_id", PList [])])) "bench"
  ∧ (load "bench" (bench_dir doc_array)).1 = Raise AttributeError
  ∧ (load "bench" (bench_dir (PDict [("tree_nodes", PNone)]))).1 = Raise AttributeError
  ∧ (load "bench"
       (bench_dir (PDict [("tree_nodes", PDict [("n1", PDict [("type", PStr "field")])])]))).1
    = Raise (KeyError "name")
  ∧ (load "bench" (bench_dir (PDict [("root_id", PList [])]))).1 = Raise TypeError.
Proof.
  assert (∀ data e,
            lacks_fields data = true →
            (load "bench" (bench_dir data)).1 = Raise e →
            ¬ no_fields_contract (bench_dir data) "bench") as Hno.
  { intros data e Hl Hr Hc.
    destruct (Hc data) as [Hret _]; [apply lookup_singleton_eq | done |].
    by apply (Hret e). }
  split; [eapply Hno; vm_compute; reflexivity|].
  split; [eapply Hno; vm_compute; reflexivity|].
  split; [eapply Hno; vm_compute; reflexivity|].
  split; [eapply Hno; vm_compute; reflexivity|].
  repeat split; vm_compute; reflexivity.
Qed.

(** ** Saving *)

Lemma save_named preset nm σ :
  Preset.name preset = PStr nm →
  save preset σ =
    (Ok (), <[preset_path nm := Complete (to_data preset)]>
              (delete (tmp_path (preset_path nm)) σ)).
Proof.
  intros H. unfold save, bind, lift, write_text, replace_file. rewrite H. simpl.
  rewrite lookup_insert_eq. by rewrite delete_insert_eq.
Qed.

(** C9: when the file of [n] holds an object, the preset [load n] returns
    is named by the document's [name] entry, and by [n] only when there is
    none; a valid document loads; a later [save] of that preset writes the
    file of the document's name and, when the two names are different
    plain file names (no separator), leaves the file of [n] as it was; and
    the two names do differ for some file. *)
Theorem load_name_from_document (σ : fs) (n : string) (kvs : list (string * py)) :
  σ !! preset_path n = Some (Complete (PDict kvs)) →
  (∀ p σ', load n σ = (Ok p, σ') →
     Preset.name p = default (PStr n) (dict_get "name" kvs))
  ∧ (valid_document (PDict kvs) = true →
       ∃ p, load n σ = (Ok p, σ) ∧
            Preset.name p = default (PStr n) (dict_get "name" kvs))
  ∧ (∀ m p σ',
       dict_get "name" kvs = Some (PStr m) →
       load n σ = (Ok p, σ') →
       ∃ σ'', save p σ' = (Ok (), σ'') ∧
              σ'' !! preset_path m = Some (Complete (to_data p)) ∧
              (has_sep m = false → has_sep n = false → m ≠ n →
               σ'' !! preset_path n = σ !! preset_path n))
  ∧ (∃ p, load "bench" (bench_dir doc_renamed) = (Ok p, bench_dir doc_renamed) ∧
          Preset.name p = PStr "field-kit").
Proof.
  intros Hfile.
  assert (∀ p σ', load n σ = (Ok p, σ') →
            σ' = σ ∧ Preset.name p = default (PStr n) (dict_get "name" kvs)) as Hname.
  { intros p σ' H. apply load_ok_inv in H as [-> [[H _] | (d & Hd & H)]].
    - by rewrite Hfile in H.
    - rewrite Hfile in Hd. injection Hd as <-. split; [done|].
      apply load_data_inv in H as (? & ? & ? & ? & ? & [= <-] & _ & _ & _ & _ & Hr).
      by apply ensure_root_inv in Hr as (? & _ & _ & _ & _ & -> & _). }
  split; [|split; [|split]].
  - intros p σ' H. by apply Hname in H as [_ ?].
  - intros Hv.
    destruct (valid_document_load n _ Hv) as (? & ? & ? & ? & _ & _ & _ & _ & _ & Hl).
    pose proof (load_present _ _ _ Hfile) as H. simpl in H. rewrite Hl in H.
    eexists. split; [exact H|]. by apply Hname in H as [_ ?].
  - intros m p σ' Hm H. apply Hname in H as [-> Hp]. rewrite Hm in Hp. simpl in Hp.
    eexists. split; [by apply save_named|]. split.
    + by rewrite lookup_insert_eq.
    + intros _ _ Hne. rewrite lookup_insert_ne, lookup_delete_ne; [done| |].
      * apply tmp_path_not_preset.
      * intros Heq. by apply preset_path_inj in Heq.
  - eexists. split; vm_compute; reflexivity.
Qed.

Lemma load_name_from_document_witness :
  ∃ p σ'',
    load "bench" (bench_dir doc_renamed) = (Ok p, bench_dir doc_renamed) ∧
    Preset.name p = PStr "field-kit" ∧
    save p (bench_dir doc_renamed) = (Ok (), σ'') ∧
    σ'' !! preset_path "field-kit" = Some (Complete (to_data p)) ∧
    σ'' !! preset_path "bench" = Some (Complete doc_renamed).
Proof.
  destruct (load_name_from_document (bench_dir doc_renamed) "bench"
              [("name", PStr "field-kit"); ("baud", PInt 9600)])
    as (H1 & H2 & H3 & _).
  - vm_compute. reflexivity.
  - destruct H2 as (p & Hl & Hp); [vm_compute; reflexivity|].
    destruct (H3 "field-kit" p _ eq_refl Hl) as (σ'' & Hs & Ha & Hb).
    exists p, σ''. repeat split; try done.
    rewrite Hb by done. vm_compute. reflexivity.
Defined.

(** ** The error contract of [load] *)













(** ** Save, then load *)

Lemma load_fields_cons_ok fid fd f rest acc :
  field_of fid fd = Ok f →
  load_fields ((fid, fd) :: rest) acc = load_fields rest (<[fid := f]> acc).
Proof. intros H. simpl. by rewrite H. Qed.

Lemma load_fields_lookup items acc m :
  NoDup items.*1 →
  load_fields items acc = Ok m →
  ∀ k, m !! k = match dict_get k items with
                | Some fd => ok_value (field_of k fd)
                | None => acc !! k
                end.
Proof.
  revert acc. induction items as [|[fid fd] items IH]; intros acc Hnd; simpl.
  - intros H k. by simplify_eq.
  - rewrite fmap_cons in Hnd. simpl in Hnd. apply NoDup_cons in Hnd as [Hfid Hnd].
    destruct (field_of fid fd) as [f| |] eqn:E; simpl; try discriminate;
      [|intros H; by apply untyped_not_ok in H].
    intros H k. rewrite (IH _ Hnd H k). case_decide as Hk.
    + subst k. apply dict_get_None in Hfid.
      by rewrite Hfid, lookup_insert_eq, E.
    + destruct (dict_get k items); [done|]. by rewrite lookup_insert_ne.
Qed.

Lemma dict_get_elem_NoDup {V} k (v : V) l :
  NoDup l.*1 → (k, v) ∈ l → dict_get k l = Some v.
Proof.
  induction l as [|[k' v'] l IH]; simpl.
  - intros _ H. by apply elem_of_nil in H.
  - rewrite NoDup_cons. intros [Hk' Hnd] [H|H]%elem_of_cons.
    + simplify_eq. by rewrite decide_True.
    + case_decide as Hk; [|by apply IH]. subst k'.
      exfalso. apply Hk'. apply list_elem_of_fmap. by exists (k, v).
Qed.

(** Looking a key up in the section that [save] writes for a map. *)
Lemma dict_get_saved {A} (g : string * A → py) (M : gmap string A) k :
  dict_get k ((λ e, (e.1, g e)) <$> map_to_list M) = (λ v, g (k, v)) <$> M !! k.
Proof.
  assert (((λ e : string * A, (e.1, g e)) <$> map_to_list M).*1 = (map_to_list M).*1) as Hk.
  { rewrite <- list_fmap_compose. by apply list_fmap_ext. }
  destruct (M !! k) as [v|] eqn:E; simpl.
  - apply dict_get_elem_NoDup.
    + rewrite Hk. apply NoDup_fst_map_to_list.
    + apply list_elem_of_fmap. exists (k, v). split; [done|].
      by apply elem_of_map_to_list.
  - apply dict_get_None. rewrite Hk. intros Hin.
    apply list_elem_of_fmap in Hin as ([k' v] & -> & Hin).
    apply elem_of_map_to_list in Hin. simpl in E. congruence.
Qed.

Lemma saved_keys_NoDup {A} (g : string * A → py) (M : gmap string A) :
  NoDup ((λ e, (e.1, g e)) <$> map_to_list M).*1.
Proof.
  rewrite <- list_fmap_compose.
  rewrite (list_fmap_ext _ fst (map_to_list M)) by done.
  apply NoDup_fst_map_to_list.
Qed.

Lemma nodes_roundtrip (M : gmap string TreeNode.t) :
  map_Forall (λ k nd, TreeNode.id nd = k) M →
  load_nodes (node_data <$> map_to_list M) ∅ = Ok M.
Proof.
  intros Hc.
  destruct (load_nodes_all_ok (node_data <$> map_to_list M) ∅) as [m Hm].
  { apply forallb_forall. intros e He. apply list_elem_of_In in He.
    by apply list_elem_of_fmap in He as (e' & -> & _). }
  rewrite Hm. f_equal. apply map_eq. intros k.
  rewrite (load_nodes_lookup _ _ _ (saved_keys_NoDup _ M) Hm k).
  unfold node_data. rewrite dict_get_saved.
  destruct (M !! k) as [nd|] eqn:E; simpl; [|by rewrite lookup_empty].
  apply Hc in E. destruct nd. simpl in E. by subst.
Qed.

Lemma sorted_elements (s : gset string) : list_to_set (sorted s) = s.
Proof.
  apply set_eq. intros x. unfold sorted.
  rewrite elem_of_list_to_set, merge_sort_Permutation. apply elem_of_elements.
Qed.

Lemma all_str_PStr l : all_str (PStr <$> l) = Some l ∧ forallb hashable (PStr <$> l) = true.
Proof.
  induction l as [|x l [IH1 IH2]]; [done|].
  rewrite fmap_cons. cbn [all_str forallb as_str hashable]. by rewrite IH1, IH2.
Qed.

(** [set] of a list of strings is the set of its elements. *)
Lemma py_set_strings l : py_set (PList (PStr <$> l)) = Ok (list_to_set l).
Proof. unfold py_set. destruct (all_str_PStr l) as [-> ->]. done. Qed.

Lemma field_of_field_data fid f :
  FieldDef.id f = fid → field_of fid (field_data (fid, f)).2 = Ok f.
Proof.
  intros <-. destruct f as [i lb tg oi].
  change (field_of _ _) with
    (obind (py_set (PList (PStr <$> sorted tg))) (λ t, Ok (FieldDef.mk i lb t oi))).
  rewrite py_set_strings. simpl. by rewrite sorted_elements.
Qed.

Lemma fields_roundtrip (M : gmap string FieldDef.t) :
  map_Forall (λ k f, FieldDef.id f = k) M →
  load_fields (field_data <$> map_to_list M) ∅ = Ok M.
Proof.
  intros Hc.
  assert (∃ m, load_fields (field_data <$> map_to_list M) ∅ = Ok m) as [m Hm].
  { generalize (∅ : gmap string FieldDef.t).
    assert (Forall (λ e, FieldDef.id e.2 = e.1) (map_to_list M)) as Hall.
    { apply Forall_forall. intros [k f] Hin. apply elem_of_map_to_list in Hin.
      by apply Hc in Hin. }
    induction Hall as [|[k f] l Hx _ IH]; intros acc; [by eexists|].
    rewrite fmap_cons.
    change (field_data (k, f)) with (k, (field_data (k, f)).2).
    rewrite (load_fields_cons_ok _ _ f) by (by apply field_of_field_data).
    apply IH. }
  rewrite Hm. f_equal. apply map_eq. intros k.
  rewrite (load_fields_lookup _ _ _ (saved_keys_NoDup _ M) Hm k).
  assert (dict_get k (field_data <$> map_to_list M)
          = (λ v, (field_data (k, v)).2) <$> M !! k) as Hd
    by exact (dict_get_saved (λ e, (field_data e).2) M k).
  change (dict_get k _) with (dict_get k (field_data <$> map_to_list M)).
  rewrite Hd.
  destruct (M !! k) as [f|] eqn:E; cbn [fmap option_fmap option_map];
    [|by rewrite lookup_empty].
  apply Hc in E. by rewrite (field_of_field_data k f E).
Qed.

Lemma load_data_to_data nm (P : Preset.t) :
  load_data nm (to_data P) =
    (nodes <- load_nodes (node_data <$> map_to_list (Preset.tree_nodes P)) ∅ ;;
     match load_fields (field_data <$> map_to_list (Preset.fields P)) ∅ with
     | Ok flds =>
         ensure_root
           (Preset.mk (Preset.name P) (Preset.device P) (Preset.baud P)
              (Preset.parity P) (Preset.stopbits P) (Preset.monitor_secs P)
              (Preset.ui_max_preview P) (Preset.ui_max_dynamic P)
              (Preset.ui_max_help P) nodes flds
              (Preset.root_id P) (Preset.last_preview P))
     | Raise e => Raise e
     | Untyped => untyped (key_of (Preset.root_id P))
     end)%out.
Proof. reflexivity. Qed.

Lemma field_of_saved k k' f :
  field_of k (field_data (k', f)).2 = Ok (rekey_field k f).
Proof.
  destruct f as [i lb tg oi].
  change (field_of _ _) with
    (obind (py_set (PList (PStr <$> sorted tg))) (λ t, Ok (FieldDef.mk k lb t oi))).
  rewrite py_set_strings. simpl. by rewrite sorted_elements.
Qed.

Lemma nodes_reload (M : gmap string TreeNode.t) :
  ∃ m, load_nodes (node_data <$> map_to_list M) ∅ = Ok m ∧
       ∀ k, m !! k = rekey_node k <$> M !! k.
Proof.
  destruct (load_nodes_all_ok (node_data <$> map_to_list M) ∅) as [m Hm].
  { apply forallb_forall. intros e He. apply list_elem_of_In in He.
    by apply list_elem_of_fmap in He as (e' & -> & _). }
  exists m. split; [done|]. intros k.
  rewrite (load_nodes_lookup _ _ _ (saved_keys_NoDup _ M) Hm k).
  unfold node_data. rewrite dict_get_saved.
  destruct (M !! k) as [nd|] eqn:E; simpl; [done|by rewrite lookup_empty].
Qed.

Lemma fields_reload (M : gmap string FieldDef.t) :
  ∃ m, load_fields (field_data <$> map_to_list M) ∅ = Ok m ∧
       ∀ k, m !! k = rekey_field k <$> M !! k.
Proof.
  assert (∃ m, load_fields (field_data <$> map_to_list M) ∅ = Ok m) as [m Hm].
  { generalize (∅ : gmap string FieldDef.t).
    induction (map_to_list M) as [|[k f] l IH]; intros acc; [by eexists|].
    rewrite fmap_cons.
    change (field_data (k, f)) with (k, (field_data (k, f)).2).
    rewrite (load_fields_cons_ok _ _ (rekey_field k f)) by apply field_of_saved.
    apply IH. }
  exists m. split; [done|]. intros k.
  rewrite (load_fields_lookup _ _ _ (saved_keys_NoDup _ M) Hm k).
  assert (dict_get k (field_data <$> map_to_list M)
          = (λ v, (field_data (k, v)).2) <$> M !! k) as Hd
    by exact (dict_get_saved (λ e, (field_data e).2) M k).
  change (dict_get k _) with (dict_get k (field_data <$> map_to_list M)).
  rewrite Hd.
  destruct (M !! k) as [f|] eqn:E; cbn [fmap option_fmap option_map];
    [|by rewrite lookup_empty].
  by rewrite field_of_saved.
Qed.

(** C1, as amended: for a preset whose name and [root_id] are strings,
    whose [tree_nodes] has the root, and whose nodes and fields are stored
    under their own ids, [save] succeeds and a following [load] of its name
    returns the very same preset: the same [tree_nodes], the same [fields]
    with the same tag sets, and the same scalar settings. *)
Theorem save_load_roundtrip (σ : fs) (P : Preset.t) (nm r : string) :
  Preset.name P = PStr nm →
  Preset.root_id P = PStr r →
  is_Some (Preset.tree_nodes P !! r) →
  coherent P →
  (∃ σ', save P σ = (Ok (), σ') ∧ load nm σ' = (Ok P, σ'))
  ∧ roundtrip σ P.
Proof.
  intros Hnm Hr Hroot [Hcn Hcf].
  assert (∃ σ', save P σ = (Ok (), σ') ∧ load nm σ' = (Ok P, σ')) as (σ' & Hs & Hl).
  { eexists. split; [by apply save_named|].
    rewrite (load_present _ _ (Complete (to_data P))) by apply lookup_insert_eq.
    f_equal. cbn [json_loads obind].
    rewrite load_data_to_data, (nodes_roundtrip _ Hcn), (fields_roundtrip _ Hcf).
    cbn [obind]. rewrite (ensure_root_str _ r) by done. simpl.
    rewrite bool_decide_eq_true_2 by done. by destruct P. }
  split; [by exists σ'|].
  exists nm, σ', P. unfold same_settings. auto 15.
Qed.

Lemma save_load_roundtrip_witness :
  (∃ σ', save preset_sample ∅ = (Ok (), σ') ∧ load "bench" σ' = (Ok preset_sample, σ'))
  ∧ roundtrip ∅ preset_sample.
Proof.
  apply (save_load_roundtrip ∅ preset_sample "bench" "root").
  - reflexivity.
  - reflexivity.
  - vm_compute. eauto.
  - split; apply (bool_decide_unpack _); vm_compute; exact I.
Defined.

(** C1, as stated, fails: the default preset has no nodes, but comes back
    from disk with a root node; and a node stored under a key other than its
    id comes back with the key as its id. *)
Lemma save_load_roundtrip_counterexample :
  ¬ roundtrip ∅ preset_default ∧ ¬ roundtrip ∅ preset_stray_id.
Proof.
  split.
  - intros (nm & σ' & Q & Hnm & Hs & Hl & Hn & _).
    injection Hnm as <-. vm_compute in Hs. injection Hs as <-.
    vm_compute in Hl. injection Hl as <-.
    apply (f_equal (λ m, m !! "root")) in Hn. vm_compute in Hn. discriminate.
  - intros (nm & σ' & Q & Hnm & Hs & Hl & Hn & _).
    injection Hnm as <-. vm_compute in Hs. injection Hs as <-.
    vm_compute in Hl. injection Hl as <-.
    apply (f_equal (λ m, TreeNode.id <$> m !! "root")) in Hn.
    vm_compute in Hn. discriminate.
Qed.

(** ** Tags *)

Lemma sorted_Sorted (s : gset string) : Sorted String.le (sorted s).
Proof. apply Sorted_merge_sort. apply _. Qed.

Lemma sorted_elem_of (s : gset string) x : x ∈ sorted s ↔ x ∈ s.
Proof. unfold sorted. rewrite merge_sort_Permutation. apply elem_of_elements. Qed.

Lemma sorted_NoDup (s : gset string) : NoDup (sorted s).
Proof. unfold sorted. rewrite merge_sort_Permutation. apply NoDup_elements. Qed.

(** Whatever order the set is iterated in, sorting gives the same list. *)
Lemma sorted_any_order (s : gset string) l :
  NoDup l → (∀ x, x ∈ l ↔ x ∈ s) → merge_sort String.le l = sorted s.
Proof.
  intros Hnd Hl. apply (Sorted_unique String.le).
  - apply Sorted_merge_sort. apply _.
  - apply sorted_Sorted.
  - unfold sorted. rewrite !merge_sort_Permutation.
    apply NoDup_Permutation; [done | apply NoDup_elements |].
    intros x. rewrite Hl. symmetry. apply elem_of_elements.
Qed.

(** The field that [load] builds from an entry whose [tags] is a list of
    strings has the set of the list's elements as its tags. *)
Lemma load_field_tags σ n kvs fl k fd l Q σ' :
  σ !! preset_path n = Some (Complete (PDict kvs)) →
  dict_get "fields" kvs = Some (PDict fl) →
  NoDup fl.*1 →
  dict_get k fl = Some (PDict fd) →
  dict_get "tags" fd = Some (PList (PStr <$> l)) →
  load n σ = (Ok Q, σ') →
  ∃ f', Preset.fields Q !! k = Some f' ∧ FieldDef.tags f' = list_to_set l.
Proof.
  intros Hf Hfl Hnd Hk Ht Hl.
  rewrite (load_present _ _ _ Hf) in Hl. injection Hl as Hl _.
  cbn [json_loads obind] in Hl.
  apply load_data_inv in Hl
    as (kvs' & nitems & nodes & fitems & flds & [= <-] & _ & _ & Hfi & Hlf & Hroot).
  rewrite Hfl in Hfi. injection Hfi as <-.
  apply ensure_root_inv in Hroot as (_ & _ & _ & _ & Hfs & _).
  rewrite Hfs. change (Preset.fields (preset_of n kvs nodes flds)) with flds.
  rewrite (load_fields_lookup _ _ _ Hnd Hlf k), Hk.
  unfold field_of. cbn [py_get obind]. rewrite Ht. cbn [default from_option id].
  rewrite py_set_strings. cbn [obind ok_value]. by eexists.
Qed.

(** C6: in the document that [save] writes, the entry of a field under
    [fields] lists the field's tags sorted and without repetition, and the
    list is the same whatever order the set is enumerated in; [load] of the
    saved file returns a field under the same key with the same tag set.
    [load] turns the [tags] list of strings of a field entry (the keys of
    the [fields] object being distinct) into the set of its elements, so
    order and repetitions are lost: a file with tags [["y","x","y"]] loads
    with the set [{"x","y"}].  A field whose tags are ["x"] and ["y"], in
    whatever order and however often they were inserted, is written with
    [["x","y"]] and comes back with [{"x","y"}]. *)
Theorem tags_sorted_and_deduplicated
    (σ : fs) (P : Preset.t) (nm r k : string) (f : FieldDef.t) :
  Preset.name P = PStr nm →
  Preset.root_id P = PStr r →
  Preset.fields P !! k = Some f →
  (∃ σ' doc fl fd Q f',
     save P σ = (Ok (), σ')
     ∧ σ' !! preset_path nm = Some (Complete (PDict doc))
     ∧ dict_get "fields" doc = Some (PDict fl)
     ∧ dict_get k fl = Some (PDict fd)
     ∧ dict_get "tags" fd = Some (PList (PStr <$> sorted (FieldDef.tags f)))
     ∧ Sorted String.le (sorted (FieldDef.tags f))
     ∧ NoDup (sorted (FieldDef.tags f))
     ∧ (∀ x, x ∈ sorted (FieldDef.tags f) ↔ x ∈ FieldDef.tags f)
     ∧ (∀ l, NoDup l → (∀ x, x ∈ l ↔ x ∈ FieldDef.tags f) →
          merge_sort String.le l = sorted (FieldDef.tags f))
     ∧ load nm σ' = (Ok Q, σ')
     ∧ Preset.fields Q !! k = Some f'
     ∧ FieldDef.tags f' = FieldDef.tags f
     ∧ (∀ l : list string,
          (∀ x, x ∈ l ↔ x = "x" ∨ x = "y") →
          FieldDef.tags f = list_to_set l →
          dict_get "tags" fd = Some (PList [PStr "x"; PStr "y"])
          ∧ FieldDef.tags f' = {[ "x"; "y" ]}))
  ∧ (∀ σ1 n kvs fl fd l Q σ2,
       σ1 !! preset_path n = Some (Complete (PDict kvs)) →
       dict_get "fields" kvs = Some (PDict fl) →
       NoDup fl.*1 →
       dict_get k fl = Some (PDict fd) →
       dict_get "tags" fd = Some (PList (PStr <$> l)) →
       load n σ1 = (Ok Q, σ2) →
       ∃ f', Preset.fields Q !! k = Some f' ∧ FieldDef.tags f' = list_to_set l)
  ∧ (∃ Q f',
       load "bench" {[ "bench.json" := Complete doc_tags_repeated ]}
         = (Ok Q, {[ "bench.json" := Complete doc_tags_repeated ]})
       ∧ Preset.fields Q !! "S1.raw" = Some f'
       ∧ FieldDef.tags f' = {[ "x"; "y" ]}).
Proof.
  intros Hnm Hr Hk. split; [|split].
  - destruct (nodes_reload (Preset.tree_nodes P)) as (nodes & Hn & Hnl).
    destruct (fields_reload (Preset.fields P)) as (flds & Hf & Hfl).
    assert (dict_get k (field_data <$> map_to_list (Preset.fields P))
            = Some (field_data (k, f)).2) as Hd.
    { pose proof (dict_get_saved (λ e, (field_data e).2) (Preset.fields P) k) as Hd.
      rewrite Hk in Hd. exact Hd. }
    eexists _, _, _, _, _, (rekey_field k f).
    split; [by apply save_named|].
    split; [unfold to_data; apply lookup_insert_eq|].
    split; [reflexivity|]. split; [exact Hd|]. split; [reflexivity|].
    split; [apply sorted_Sorted|]. split; [apply sorted_NoDup|].
    split; [apply sorted_elem_of|]. split; [apply sorted_any_order|].
    split; [|split; [|split; [reflexivity|]]].
    + rewrite (load_present _ _ (Complete (to_data P))) by apply lookup_insert_eq.
      cbn [json_loads obind]. rewrite load_data_to_data, Hn, Hf. cbn [obind].
      rewrite (ensure_root_str _ r) by done. reflexivity.
    + cbn [Preset.tree_nodes]. case_bool_decide; cbn; by rewrite Hfl, Hk.
    + intros l Hl Ht.
      assert (FieldDef.tags f = ({[ "x"; "y" ]} : gset string)) as Hs.
      { rewrite Ht. apply set_eq. intros x. rewrite elem_of_list_to_set, Hl.
        rewrite elem_of_union, !elem_of_singleton. done. }
      cbn [field_data snd dict_get]. rewrite Hs. split; [|done].
      vm_compute. reflexivity.
  - intros σ1 n kvs fl fd l Q σ2. apply load_field_tags.
  - eexists _, _. split; [vm_compute; reflexivity|].
    split; vm_compute; reflexivity.
Qed.

Lemma tags_sorted_and_deduplicated_witness :
  ∃ σ' Q f',
    save preset_sample ∅ = (Ok (), σ')
    ∧ load "bench" σ' = (Ok Q, σ')
    ∧ Preset.fields Q !! "S1.raw" = Some f'
    ∧ FieldDef.tags f' = list_to_set ["y"; "x"; "y"].
Proof.
  assert (Preset.fields preset_sample !! "S1.raw"
          = Some (FieldDef.mk "S1.raw" (PStr "Sensor 1")
                    (list_to_set ["y"; "x"; "y"]) (PInt 0))) as E
    by (vm_compute; reflexivity).
  destruct (tags_sorted_and_deduplicated ∅ preset_sample "bench" "root" "S1.raw" _
              eq_refl eq_refl E)
    as [(σ' & doc & fl & fd & Q & f' & H1 & _ & _ & _ & _ & _ & _ & _ & _
         & H2 & H3 & H4 & _) _].
  exists σ', Q, f'. split; [exact H1|]. split; [exact H2|]. split; [exact H3|].
  exact H4.
Defined.

(** ** Listing *)

Lemma listed_elem σ x :
  x ∈ listed σ ↔
  ∃ k, is_Some (σ !! k) ∧ is_preset_file k = true ∧ x = path_stem k.
Proof.
  change (listed σ) with
    (merge_sort String.le
       (path_stem <$> filter (λ k, is_preset_file k) (elements (dom σ)))).
  rewrite merge_sort_Permutation, list_elem_of_fmap. split.
  - intros (k & -> & Hk). apply list_elem_of_filter in Hk as [Hm Hk].
    apply elem_of_elements, elem_of_dom in Hk. exists k.
    split; [done|]. split; [by apply Is_true_true|done].
  - intros (k & Hk & Hm & ->). exists k. split; [done|].
    apply list_elem_of_filter. split; [by apply Is_true_true|].
    by apply elem_of_elements, elem_of_dom.
Qed.

(** Directories with the same preset files have the same listing. *)
Lemma listed_ext σ σ' :
  (∀ k, is_preset_file k = true → σ !! k = σ' !! k) → listed σ = listed σ'.
Proof.
  intros H.
  change (listed σ) with
    (merge_sort String.le
       (path_stem <$> filter (λ k, is_preset_file k) (elements (dom σ)))).
  change (listed σ') with
    (merge_sort String.le
       (path_stem <$> filter (λ k, is_preset_file k) (elements (dom σ')))).
  apply (Sorted_unique String.le); [apply Sorted_merge_sort; apply _..|].
  rewrite !merge_sort_Permutation. apply fmap_Permutation.
  apply NoDup_Permutation; [apply NoDup_filter, NoDup_elements..|].
  intros k. rewrite !list_elem_of_filter, !elem_of_elements, !elem_of_dom.
  split; intros [Hm Hk]; (split; [done|]); apply Is_true_true in Hm.
  - by rewrite <- (H k Hm).
  - by rewrite (H k Hm).
Qed.








(** ** Atomic replace *)

Lemma load_same_file σ σ' name :
  σ !! preset_path name = σ' !! preset_path name →
  (load name σ).1 = (load name σ').1.
Proof.
  intros H. destruct (σ !! preset_path name) as [c|] eqn:E; symmetry in H.
  - by rewrite (load_present _ _ _ E), (load_present _ _ _ H).
  - by rewrite (load_absent _ _ E), (load_absent _ _ H).
Qed.

Section interrupted_save.
Variables (tmp p : string) (doc : py) (σ0 : fs).

Lemma save_step_inv s s' :
  save_inv tmp p doc σ0 s → save_step tmp p doc s s' → save_inv tmp p doc σ0 s'.
Proof.
  intros Hi Hs. destruct Hs as [σ|σ n m Hlt|σ n|σ c Hc]; unfold save_inv in *;
    simpl in *.
  - subst σ. by rewrite delete_insert_eq, lookup_insert_eq.
  - destruct Hi as [Hd _]. by rewrite delete_insert_eq, lookup_insert_eq.
  - destruct Hi as [Hd _]. by rewrite delete_insert_eq, lookup_insert_eq.
  - destruct Hi as [Hd Ht]. rewrite Hc in Ht. injection Ht as ->. by rewrite Hd.
Qed.

Lemma save_run_inv s :
  rtc (save_step tmp p doc) (Begin, σ0) s → save_inv tmp p doc σ0 s.
Proof.
  revert s. apply rtc_ind_r; [done|].
  intros y z _ Hs Hi. by eapply save_step_inv.
Qed.

Lemma save_run_complete :
  rtc (save_step tmp p doc) (Begin, σ0)
      (Renamed, <[p := Complete doc]> (delete tmp σ0)).
Proof.
  eapply rtc_l; [apply step_open|].
  eapply rtc_l; [apply (step_close _ _ _ _ 0)|].
  eapply rtc_l; [apply step_replace; apply lookup_insert_eq|].
  rewrite !delete_insert_eq. apply rtc_refl.
Qed.
End interrupted_save.

Lemma path_split_nosep x : has_sep x = false → path_split x = ("", x).
Proof.
  induction x as [|c r IH]; simpl; [done|].
  intros [Hc Hr]%orb_false_iff. by rewrite (IH Hr), Hr, Hc.
Qed.

Lemma path_split_spec p :
  p = (path_split p).1 +:+ (path_split p).2 ∧ has_sep (path_split p).2 = false.
Proof.
  induction p as [|c r [IH1 IH2]]; simpl; [done|].
  destruct (has_sep r) eqn:Hr.
  - destruct (path_split r) as [d n]. simpl in *. split; [|done].
    rewrite IH1 at 1. reflexivity.
  - rewrite (path_split_nosep r Hr).
    destruct (is_sep c) eqn:Hc; simpl; [done|]. by rewrite Hc, Hr.
Qed.

(** Appending a name to the parent part of a path gives a sibling. *)
Lemma path_split_sibling p x :
  has_sep x = false →
  path_split ((path_split p).1 +:+ x) = ((path_split p).1, x).
Proof.
  intros Hx. induction p as [|c r IH]; simpl.
  - by apply path_split_nosep.
  - destruct (has_sep r) eqn:Hr.
    + destruct (path_split_spec r) as [Hr1 Hr2].
      destruct (path_split r) as [d n]. simpl in *.
      rewrite IH. rewrite has_sep_app, Hx, orb_false_r.
      rewrite Hr1, has_sep_app, Hr2, orb_false_r in Hr. by rewrite Hr.
    + rewrite (path_split_nosep r Hr).
      destruct (is_sep c) eqn:Hc; simpl.
      * change ("" +:+ x) with x.
        by rewrite (path_split_nosep x Hx), Hx, Hc.
      * by apply path_split_nosep.
Qed.

Lemma has_sep_substring s i k : has_sep s = false → has_sep (substring i k s) = false.
Proof.
  revert i k. induction s as [|c r IH]; intros i k; simpl.
  - by destruct i, k.
  - intros [Hc Hr]%orb_false_iff. destruct i as [|i].
    + destruct k as [|k]; simpl; [done|]. by rewrite Hc, IH.
    + by apply IH.
Qed.

(** The temporary file lies in the directory of the file it replaces. *)
Lemma tmp_path_sibling p : (path_split (tmp_path p)).1 = (path_split p).1.
Proof.
  unfold tmp_path, with_suffix.
  destruct (path_split_spec p) as [_ Hn].
  pose proof (path_split_sibling p (path_stem (path_split p).2 +:+ ".json.tmp")) as H.
  destruct (path_split p) as [d nm]. simpl in *. rewrite H; [done|].
  rewrite has_sep_app. unfold path_stem, str_take.
  by rewrite has_sep_substring.
Qed.

(** C2: [save] writes the document to a temporary file in the directory of
    the target and then renames it over the target.  The temporary file is
    never the file of a preset and is never listed.  In every state of an
    interrupted run before the rename, every preset file is as it was (or
    is still absent) and every [load] gives what it gave before; once the
    rename is done the target holds the complete document, which parses,
    the directory is the one [save] returns, and every path other than the
    target and the temporary file is untouched.  At no point does the
    target hold a partly written text, and a run that is not interrupted
    reaches the rename. *)
Theorem save_atomic_replace (preset : Preset.t) (nm : string) (σ0 σ : fs) (st : stage) :
  Preset.name preset = PStr nm →
  save_reaches preset nm σ0 st σ →
  (path_split (tmp_path (preset_path nm))).1 = (path_split (preset_path nm)).1
  ∧ (∀ q, tmp_path (preset_path nm) ≠ preset_path q)
  ∧ is_preset_file (tmp_path (preset_path nm)) = false
  ∧ (st ≠ Renamed →
       ∀ q, σ !! preset_path q = σ0 !! preset_path q ∧ (load q σ).1 = (load q σ0).1)
  ∧ (st = Renamed →
       σ !! preset_path nm = Some (Complete (to_data preset)) ∧
       json_loads (Complete (to_data preset)) = Ok (to_data preset) ∧
       save preset σ0 = (Ok (), σ) ∧
       ∀ k, k ≠ preset_path nm → k ≠ tmp_path (preset_path nm) →
            σ !! k = σ0 !! k)
  ∧ (σ !! preset_path nm = σ0 !! preset_path nm ∨
     σ !! preset_path nm = Some (Complete (to_data preset)))
  ∧ save_reaches preset nm σ0 Renamed (save preset σ0).2.
Proof.
  intros Hnm Hrun. apply save_run_inv in Hrun. unfold save_inv in Hrun. simpl in Hrun.
  pose proof (tmp_path_not_preset (preset_path nm)) as Htmp.
  assert (st ≠ Renamed → ∀ q, σ !! preset_path q = σ0 !! preset_path q) as Hbefore.
  { intros Hst q. destruct st as [|n| |]; try done.
    - by subst.
    - destruct Hrun as [Hd _]. apply (f_equal (λ m, m !! preset_path q)) in Hd.
      by rewrite !lookup_delete_ne in Hd.
    - destruct Hrun as [Hd _]. apply (f_equal (λ m, m !! preset_path q)) in Hd.
      by rewrite !lookup_delete_ne in Hd. }
  split; [apply tmp_path_sibling|]. split; [exact Htmp|].
  split; [apply tmp_path_not_listed|]. split; [|split; [|split]].
  - intros Hst q. split; [by apply Hbefore|]. apply load_same_file. by apply Hbefore.
  - intros ->. subst σ. split; [by rewrite lookup_insert_eq|]. split; [done|].
    split; [by apply save_named|].
    intros k Hk Ht. by rewrite lookup_insert_ne, lookup_delete_ne.
  - destruct st as [|n| |]; [left; by apply Hbefore..|].
    right. subst σ. by rewrite lookup_insert_eq.
  - rewrite (save_named _ _ _ Hnm). apply save_run_complete.
Qed.

Lemma save_atomic_replace_witness :
  (<[ tmp_path (preset_path "bench") := Torn (to_data preset_sample) 40 ]>
     (bench_dir doc_renamed)) !! preset_path "bench"
  = Some (Complete doc_renamed)
  ∧ (load "bench" (<[ tmp_path (preset_path "bench") := Torn (to_data preset_sample) 40 ]>
                     (bench_dir doc_renamed))).1
    = (load "bench" (bench_dir doc_renamed)).1.
Proof.
  destruct (save_atomic_replace preset_sample "bench" (bench_dir doc_renamed)
              (<[ tmp_path (preset_path "bench") := Torn (to_data preset_sample) 40 ]>
                 (bench_dir doc_renamed))
              (Writing 40))
    as (_ & _ & _ & H & _).
  - reflexivity.
  - unfold save_reaches.
    eapply rtc_l; [apply step_open|].
    eapply rtc_l; [apply (step_write _ _ _ _ 0 40); lia|].
    rewrite insert_insert_eq. apply rtc_refl.
  - destruct (H ltac:(done) "bench") as [H1 H2]. split; [|exact H2].
    rewrite H1. vm_compute. reflexivity.
Defined.

(** * Further properties of the storage layer *)

(** ** Reading *)

(** X1: [load] leaves the directory as it is whatever it returns or raises,
    and its outcome depends on nothing but the file of the requested name. *)
Theorem load_read_only_local (σ σ' : fs) (name : string) :
  σ' !! preset_path name = σ !! preset_path name →
  (load name σ).2 = σ ∧ (load name σ').2 = σ' ∧ (load name σ').1 = (load name σ).1.
Proof.
  intros H. split; [apply load_keeps_fs|]. split; [apply load_keeps_fs|].
  by apply load_same_file.
Qed.

Lemma load_read_only_local_witness :
  (load "bench" (bench_dir doc_array)).2 = bench_dir doc_array
  ∧ (load "bench" (<[ "other.json" := NotJson "{" ]> (bench_dir doc_array))).2
    = <[ "other.json" := NotJson "{" ]> (bench_dir doc_array)
  ∧ (load "bench" (<[ "other.json" := NotJson "{" ]> (bench_dir doc_array))).1
    = (load "bench" (bench_dir doc_array)).1.
Proof.
  apply (load_read_only_local (bench_dir doc_array)
           (<[ "other.json" := NotJson "{" ]> (bench_dir doc_array)) "bench").
  vm_compute. reflexivity.
Defined.

(** Settle a goal about [k] for each of the keys [load] reads. *)
Ltac read_key_cases H :=
  unfold read_keys in H; rewrite !elem_of_cons, elem_of_nil in H;
  repeat (destruct H as [-> | H]; [vm_compute; reflexivity|]);
  destruct H.

Lemma in_read_keys_dec k : k ∈ read_keys ↔ bool_decide (k ∈ read_keys) = true.
Proof. by rewrite bool_decide_eq_true. Qed.

Lemma load_data_agree name kvs kvs' :
  (∀ k, k ∈ read_keys → dict_get k kvs = dict_get k kvs') →
  load_data name (PDict kvs) = load_data name (PDict kvs').
Proof.
  intros H. rewrite !load_data_dict. unfold preset_of.
  assert (∀ k, bool_decide (k ∈ read_keys) = true → dict_get k kvs = dict_get k kvs')
    as H' by (intros k Hk; by apply H, in_read_keys_dec).
  by rewrite !H' by reflexivity.
Qed.

(** X3: [load] reads thirteen keys of the document and nothing else: two
    objects that agree on those keys load alike, whatever else they hold
    (a ["schema"] entry among it) or lack. *)
Theorem load_reads_only_its_keys (σ σ' : fs) (name : string)
    (kvs kvs' : list (string * py)) :
  σ !! preset_path name = Some (Complete (PDict kvs)) →
  σ' !! preset_path name = Some (Complete (PDict kvs')) →
  (∀ k, k ∈ read_keys → dict_get k kvs = dict_get k kvs') →
  (load name σ).1 = (load name σ').1.
Proof.
  intros H1 H2 Hk. rewrite (load_present _ _ _ H1), (load_present _ _ _ H2).
  simpl. by apply load_data_agree.
Qed.

Lemma load_reads_only_its_keys_witness :
  (load "bench" (bench_dir (PDict [("schema", PInt 7); ("baud", PInt 9600);
                                   ("color", PStr "red")]))).1
  = (load "bench" (bench_dir (PDict [("baud", PInt 9600)]))).1.
Proof.
  apply (load_reads_only_its_keys _ _ "bench"
           [("schema", PInt 7); ("baud", PInt 9600); ("color", PStr "red")]
           [("baud", PInt 9600)]).
  - vm_compute. reflexivity.
  - vm_compute. reflexivity.
  - intros k Hk. read_key_cases Hk.
Defined.

(** X2: a file whose object has none of the keys [load] reads is loaded as
    the preset that [load] makes when there is no file at all: the defaults
    of the loader are those of the [Preset] constructor, and the root it
    inserts is the root of a new preset. *)
Theorem load_object_without_keys_is_fresh (σ : fs) (name : string)
    (kvs : list (string * py)) :
  σ !! preset_path name = Some (Complete (PDict kvs)) →
  (∀ k, k ∈ read_keys → dict_get k kvs = None) →
  (load name σ).1 = (load name (delete (preset_path name) σ)).1
  ∧ (load name σ).1 =
      Ok (Preset.set_tree_nodes (Preset.new (PStr name))
            {[ "root" := root_node "root" ]}).
Proof.
  intros Hfile Hk.
  assert ((load name σ).1 =
            Ok (Preset.set_tree_nodes (Preset.new (PStr name))
                  {[ "root" := root_node "root" ]})) as H.
  { rewrite (load_present _ _ _ Hfile). simpl.
    rewrite (load_data_agree name kvs []) by (intros k Hin; by rewrite Hk).
    reflexivity. }
  split; [|exact H]. rewrite H.
  by rewrite (load_absent _ name) by apply lookup_delete_eq.
Qed.

Lemma load_object_without_keys_is_fresh_witness :
  (load "bench" (bench_dir (PDict [("schema", PInt 1)]))).1
  = (load "bench" (delete (preset_path "bench") (bench_dir (PDict [("schema", PInt 1)])))).1.
Proof.
  refine (proj1 (load_object_without_keys_is_fresh
                   (bench_dir (PDict [("schema", PInt 1)])) "bench"
                   [("schema", PInt 1)] _ _)).
  - vm_compute. reflexivity.
  - intros k Hk. read_key_cases Hk.
Defined.

(** ** Writing *)

(** X4: [save] of a preset with a string name returns; afterwards the
    target holds the document, the temporary file is gone, and every other
    path is as before.  What the target or the temporary file held before
    plays no part, and saving the same preset again changes nothing. *)
Theorem save_frame (preset : Preset.t) (nm : string) (σ : fs) :
  Preset.name preset = PStr nm →
  ∃ σ',
    save preset σ = (Ok (), σ')
    ∧ σ' !! preset_path nm = Some (Complete (to_data preset))
    ∧ σ' !! tmp_path (preset_path nm) = None
    ∧ (∀ q, q ≠ preset_path nm → q ≠ tmp_path (preset_path nm) → σ' !! q = σ !! q)
    ∧ (∀ c, save preset (<[preset_path nm := c]> σ) = (Ok (), σ'))
    ∧ (∀ c, save preset (<[tmp_path (preset_path nm) := c]> σ) = (Ok (), σ'))
    ∧ save preset σ' = (Ok (), σ').
Proof.
  intros Hnm. pose proof (tmp_path_not_preset (preset_path nm) nm) as Hne.
  eexists. split; [by apply save_named|]. split; [by rewrite lookup_insert_eq|].
  split; [by rewrite lookup_insert_ne, lookup_delete_eq|].
  split; [|split; [|split]].
  - intros q Hp Ht. by rewrite lookup_insert_ne, lookup_delete_ne.
  - intros c. rewrite (save_named _ _ _ Hnm). f_equal.
    by rewrite delete_insert_ne, insert_insert_eq.
  - intros c. rewrite (save_named _ _ _ Hnm). f_equal.
    by rewrite delete_insert_eq.
  - rewrite (save_named _ _ _ Hnm). f_equal.
    rewrite delete_insert_ne by done. rewrite insert_insert_eq. f_equal.
    apply delete_id, lookup_delete_eq.
Qed.

Lemma save_frame_witness :
  ∃ σ',
    save preset_sample (bench_dir doc_array) = (Ok (), σ')
    ∧ σ' !! preset_path "bench" = Some (Complete (to_data preset_sample))
    ∧ σ' !! tmp_path (preset_path "bench") = None
    ∧ save preset_sample σ' = (Ok (), σ').
Proof.
  destruct (save_frame preset_sample "bench" (bench_dir doc_array) eq_refl)
    as (σ' & H1 & H2 & H3 & _ & _ & _ & H4).
  by exists σ'.
Defined.

(** X5: for names without a path separator, saving a preset named [m]
    does not change what [load] gives for another name [n]. *)
Theorem save_keeps_other_presets (preset : Preset.t) (m n : string) (σ : fs) :
  Preset.name preset = PStr m →
  has_sep m = false →
  has_sep n = false →
  n ≠ m →
  (load n (save preset σ).2).1 = (load n σ).1.
Proof.
  intros Hm _ _ Hne. apply load_same_file. rewrite (save_named _ _ _ Hm). simpl.
  rewrite lookup_insert_ne, lookup_delete_ne; [done| |].
  - apply tmp_path_not_preset.
  - intros Heq. by apply preset_path_inj in Heq.
Qed.

Lemma save_keeps_other_presets_witness :
  (load "field-kit" (save preset_sample (<[ "field-kit.json" := Complete doc_renamed ]> ∅)).2).1
  = (load "field-kit" (<[ "field-kit.json" := Complete doc_renamed ]> ∅)).1.
Proof.
  apply (save_keeps_other_presets preset_sample "bench" "field-kit");
    [reflexivity | reflexivity | reflexivity | discriminate].
Defined.

(** ** The temporary file *)

Lemma str_app_assoc a b c : (a +:+ b) +:+ c = a +:+ (b +:+ c).
Proof.
  induction a as [|x a IH]; [done|].
  change (String x ((a +:+ b) +:+ c) = String x (a +:+ (b +:+ c))). by f_equal.
Qed.

Lemma str_app_nil_r a : a +:+ "" = a.
Proof.
  induction a as [|x a IH]; [done|].
  change (String x (a +:+ "") = String x a). by f_equal.
Qed.

Lemma path_split_app_nosep p x :
  has_sep x = false →
  path_split (p +:+ x) = ((path_split p).1, (path_split p).2 +:+ x).
Proof.
  intros Hx. destruct (path_split_spec p) as [Hp Hn].
  pose proof (path_split_sibling p ((path_split p).2 +:+ x)) as H.
  rewrite <- str_app_assoc, <- Hp in H. apply H.
  by rewrite has_sep_app, Hn, Hx.
Qed.

(** X6: the temporary file of a save is the target with [.tmp] appended;
    only when the final component of the name is empty (an empty name, or
    one that ends in a separator) does pathlib find no suffix to replace,
    and the temporary file is [<name>.json.json.tmp]. *)
Theorem tmp_path_form (nm : string) :
  tmp_path (preset_path nm) =
    if bool_decide ((path_split nm).2 = "")
    then nm +:+ ".json.json.tmp"
    else preset_path nm +:+ ".tmp".
Proof.
  unfold tmp_path, with_suffix, preset_path.
  rewrite path_split_app_nosep by done.
  destruct (path_split_spec nm) as [Hp _].
  destruct (path_split nm) as [d n]. simpl in *. subst nm.
  case_bool_decide as Hn.
  - subst n. rewrite str_app_nil_r. reflexivity.
  - change (n +:+ ".json") with (preset_path n).
    rewrite (path_stem_preset_path n Hn). unfold preset_path.
    rewrite !str_app_assoc. reflexivity.
Qed.

(** ** Listing and the other operations *)

(** X7: a preset file is listed under the name that reads it: when the
    file [a.json] of a non-empty name [a] without separator exists,
    [list_presets] returns [a] among its names and [load a] reads that
    file rather than making a new preset.  A file named just [.json] is
    the exception: it is listed as [".json"], the name whose file is
    [.json.json], so [load] of the listed name makes a new preset. *)
Theorem preset_file_listed_and_read (σ : fs) (a : string) (c : contents) :
  a ≠ "" →
  has_sep a = false →
  σ !! (a +:+ ".json") = Some c →
  (∃ names, list_presets σ = (Ok names, σ) ∧ a ∈ names)
  ∧ load a σ = (obind (json_loads c) (load_data a), σ)
  ∧ (∀ σ1 : fs, is_Some (σ1 !! ".json") →
       ∃ names, list_presets σ1 = (Ok names, σ1) ∧ ".json" ∈ names)
  ∧ (∀ σ1 : fs, σ1 !! ".json.json" = None →
       (load ".json" σ1).1 =
         Ok (Preset.set_tree_nodes (Preset.new (PStr ".json"))
               {[ "root" := root_node "root" ]})).
Proof.
  intros Ha Hsep Hc. split; [|split; [|split]].
  - exists (listed σ). split; [reflexivity|].
    apply listed_elem. exists (preset_path a).
    split; [by exists c|]. split; [by apply is_preset_file_path|].
    symmetry. by apply path_stem_preset_path.
  - by apply load_present.
  - intros σ1 H1. exists (listed σ1). split; [reflexivity|].
    apply listed_elem. by exists ".json".
  - intros σ1 H1. by rewrite (load_absent σ1 ".json" H1).
Qed.

Lemma preset_file_listed_and_read_witness :
  (∃ names, list_presets (bench_dir doc_renamed) = (Ok names, bench_dir doc_renamed)
            ∧ "bench" ∈ names)
  ∧ load "bench" (bench_dir doc_renamed)
    = (load_data "bench" doc_renamed, bench_dir doc_renamed).
Proof.
  destruct (preset_file_listed_and_read (bench_dir doc_renamed) "bench"
              (Complete doc_renamed)) as (H1 & H2 & _).
  - discriminate.
  - reflexivity.
  - vm_compute. reflexivity.
  - split; [exact H1|exact H2].
Defined.

(** X8: after [save] of a preset whose name is not empty and has no
    separator, the listing has the names it had before and that name. *)
Theorem save_then_listed (preset : Preset.t) (nm : string) (σ : fs) :
  Preset.name preset = PStr nm →
  nm ≠ "" →
  has_sep nm = false →
  ∀ x, x ∈ listed (save preset σ).2 ↔ x = nm ∨ x ∈ listed σ.
Proof.
  intros Hnm Hne Hsep x. rewrite (save_named _ _ _ Hnm). simpl.
  rewrite !listed_elem.
  pose proof (is_preset_file_path nm Hsep) as Hp.
  pose proof (path_stem_preset_path nm Hne) as Hstem.
  assert (∀ k, is_preset_file k = true → k ≠ preset_path nm →
    (<[preset_path nm := Complete (to_data preset)]>
       (delete (tmp_path (preset_path nm)) σ)) !! k = σ !! k) as Hother.
  { intros k Hk Hkp. rewrite lookup_insert_ne by done.
    apply lookup_delete_ne. intros <-.
    by rewrite tmp_path_not_listed in Hk. }
  split.
  - intros (k & Hk & Hm & ->).
    destruct (decide (k = preset_path nm)) as [->|Hkp]; [left; by rewrite Hstem|].
    right. exists k. by rewrite <- (Hother k Hm Hkp).
  - intros [-> | (k & Hk & Hm & ->)].
    + exists (preset_path nm). by rewrite lookup_insert_eq, Hstem.
    + exists k. split; [|done].
      destruct (decide (k = preset_path nm)) as [->|Hkp].
      * by rewrite lookup_insert_eq.
      * by rewrite (Hother k Hm Hkp).
Qed.

Lemma save_then_listed_witness :
  "bench" ∈ listed (save preset_sample (<[ "a.json" := NotJson "" ]> ∅)).2
  ∧ "a" ∈ listed (save preset_sample (<[ "a.json" := NotJson "" ]> ∅)).2.
Proof.
  split;
    apply (save_then_listed preset_sample "bench" (<[ "a.json" := NotJson "" ]> ∅));
    try done.
  - by left.
  - right. vm_compute. apply list_elem_of_here.
Defined.

(** X9: in every state of an interrupted [save] before the rename the
    listing is the one before the save: the temporary file never shows. *)
Theorem listing_during_save (preset : Preset.t) (nm : string) (σ0 σ : fs) (st : stage) :
  Preset.name preset = PStr nm →
  save_reaches preset nm σ0 st σ →
  st ≠ Renamed →
  list_presets σ = (Ok (listed σ0), σ).
Proof.
  intros _ Hrun Hst.
  change (list_presets σ) with (Ok (listed σ), σ). do 2 f_equal.
  apply listed_ext. intros k Hk.
  apply save_run_inv in Hrun. unfold save_inv in Hrun. simpl in Hrun.
  assert (k ≠ tmp_path (preset_path nm)) as Hne.
  { intros ->. by rewrite tmp_path_not_listed in Hk. }
  destruct st as [|n| |]; try done.
  - by subst.
  - destruct Hrun as [Hd _]. apply (f_equal (λ m, m !! k)) in Hd.
    by rewrite !lookup_delete_ne in Hd.
  - destruct Hrun as [Hd _]. apply (f_equal (λ m, m !! k)) in Hd.
    by rewrite !lookup_delete_ne in Hd.
Qed.

Lemma listing_during_save_witness :
  list_presets (<[ tmp_path (preset_path "bench") := Torn (to_data preset_sample) 40 ]>
                  (bench_dir doc_renamed))
  = (Ok (listed (bench_dir doc_renamed)),
     <[ tmp_path (preset_path "bench") := Torn (to_data preset_sample) 40 ]>
       (bench_dir doc_renamed)).
Proof.
  apply (listing_during_save preset_sample "bench" (bench_dir doc_renamed) _ (Writing 40)).
  - reflexivity.
  - unfold save_reaches.
    eapply rtc_l; [apply step_open|].
    eapply rtc_l; [apply (step_write _ _ _ _ 0 40); lia|].
    rewrite insert_insert_eq. apply rtc_refl.
  - discriminate.
Defined.

(** ** Saving and loading any preset *)

(** X10: [save] followed by [load] of the name returns for every preset
    whose name and [root_id] are strings.  The preset that comes back has
    the same name, settings and [last_preview]; its fields and nodes are
    those of the saved preset under the same keys, each with its id set to
    its key; a root node is added under [root_id] if there was none; and
    all ids equal their keys. *)
Theorem save_then_load_normalises (σ : fs) (P : Preset.t) (nm r : string) :
  Preset.name P = PStr nm →
  Preset.root_id P = PStr r →
  ∃ σ' Q,
    save P σ = (Ok (), σ') ∧
    load nm σ' = (Ok Q, σ') ∧
    Preset.name Q = Preset.name P ∧
    same_settings P Q ∧
    Preset.last_preview Q = Preset.last_preview P ∧
    (∀ k, Preset.fields Q !! k = rekey_field k <$> Preset.fields P !! k) ∧
    (∀ k, k ≠ r →
       Preset.tree_nodes Q !! k = rekey_node k <$> Preset.tree_nodes P !! k) ∧
    Preset.tree_nodes Q !! r =
      Some (from_option (rekey_node r) (root_node r) (Preset.tree_nodes P !! r)) ∧
    coherent Q.
Proof.
  intros Hnm Hr.
  destruct (nodes_reload (Preset.tree_nodes P)) as (nodes & Hn & Hnl).
  destruct (fields_reload (Preset.fields P)) as (flds & Hf & Hfl).
  eexists _, _. split; [by apply save_named|].
  rewrite (load_present _ _ (Complete (to_data P))) by apply lookup_insert_eq.
  cbn [json_loads obind]. rewrite load_data_to_data, Hn, Hf. cbn [obind].
  rewrite (ensure_root_str _ r) by done. cbn [Preset.tree_nodes].
  split; [reflexivity|].
  assert (map_Forall (λ k nd, TreeNode.id nd = k) nodes) as Hcn.
  { intros k nd Hk. rewrite Hnl in Hk.
    destruct (Preset.tree_nodes P !! k); simpl in Hk;
      [by injection Hk as <- | discriminate]. }
  assert (map_Forall (λ k f, FieldDef.id f = k) flds) as Hcf.
  { intros k f Hk. rewrite Hfl in Hk.
    destruct (Preset.fields P !! k); simpl in Hk;
      [by injection Hk as <- | discriminate]. }
  case_bool_decide as Hroot.
  - simpl. unfold same_settings. simpl. repeat split; try done.
    rewrite Hnl. destruct Hroot as [nd Hnd]. rewrite Hnl in Hnd.
    by destruct (Preset.tree_nodes P !! r).
  - simpl. unfold same_settings. simpl. repeat split; try done.
    + intros k Hk. rewrite lookup_insert_ne by done. apply Hnl.
    + rewrite lookup_insert_eq. rewrite Hnl in Hroot.
      destruct (Preset.tree_nodes P !! r); [|done].
      exfalso. apply Hroot. by eexists.
    + by apply map_Forall_insert_2.
Qed.

Lemma save_then_load_normalises_witness :
  ∃ σ' Q,
    save preset_stray_id ∅ = (Ok (), σ') ∧
    load "bench" σ' = (Ok Q, σ') ∧
    Preset.tree_nodes Q !! "root" = Some (root_node "root") ∧
    coherent Q.
Proof.
  destruct (save_then_load_normalises ∅ preset_stray_id "bench" "root" eq_refl eq_refl)
    as (σ' & Q & H1 & H2 & _ & _ & _ & _ & _ & H3 & H4).
  exists σ', Q. split; [exact H1|]. split; [exact H2|]. split; [|exact H4].
  rewrite H3. vm_compute. reflexivity.
Defined.

Lemma load_saved_exact (σ : fs) (P : Preset.t) (nm r : string) :
  Preset.name P = PStr nm →
  Preset.root_id P = PStr r →
  is_Some (Preset.tree_nodes P !! r) →
  coherent P →
  load nm (<[preset_path nm := Complete (to_data P)]> σ) =
    (Ok P, <[preset_path nm := Complete (to_data P)]> σ).
Proof.
  intros Hnm Hr Hroot [Hcn Hcf].
  rewrite (load_present _ _ (Complete (to_data P))) by apply lookup_insert_eq.
  f_equal. cbn [json_loads obind].
  rewrite load_data_to_data, (nodes_roundtrip _ Hcn), (fields_roundtrip _ Hcf).
  cbn [obind]. rewrite (ensure_root_str _ r) by done. simpl.
  rewrite bool_decide_eq_true_2 by done. by destruct P.
Qed.

(** X11: a preset of the declared types that [load] has returned (its
    [root_id] a string and its tags sets of strings, which is what the
    result [Ok] records), when its name is a string, is reproduced exactly
    by [save] followed by [load] of that name, whatever file it was loaded
    from and into whatever directory it is saved.  A document with a
    number as [root_id], or with numbers among its tags, loads to a preset
    that is not of the declared types and is not covered. *)
Theorem loaded_preset_roundtrips (σ0 σ1 σ : fs) (n m : string) (p : Preset.t) :
  load n σ0 = (Ok p, σ1) →
  Preset.name p = PStr m →
  ∃ σ', save p σ = (Ok (), σ') ∧ load m σ' = (Ok p, σ').
Proof.
  intros Hl Hm. eexists. split; [by apply save_named|].
  apply load_ok_inv in Hl as [_ [[_ ->] | (data & _ & Hd)]].
  - apply (load_saved_exact _ _ _ "root"); try done.
    split; [|apply map_Forall_empty]. by apply map_Forall_singleton.
  - pose proof (load_data_coherent _ _ _ Hd) as Hc.
    apply load_data_inv in Hd as (? & ? & ? & ? & ? & _ & _ & _ & _ & _ & He).
    apply ensure_root_inv in He as (r & _ & Hr & Hroot & _).
    by apply (load_saved_exact _ _ _ r).
Qed.

Lemma loaded_preset_roundtrips_witness :
  ∃ p σ',
    load "bench" (bench_dir doc_renamed) = (Ok p, bench_dir doc_renamed) ∧
    save p ∅ = (Ok (), σ') ∧ load "field-kit" σ' = (Ok p, σ').
Proof.
  assert (∃ p, load "bench" (bench_dir doc_renamed) = (Ok p, bench_dir doc_renamed)
               ∧ Preset.name p = PStr "field-kit") as (p & Hl & Hn).
  { eexists. split; vm_compute; reflexivity. }
  destruct (loaded_preset_roundtrips _ _ ∅ _ "field-kit" p Hl Hn) as (σ' & Hs & Hl').
  by exists p, σ'.
Defined.

(** ** Which exception, and when *)

Lemma load_nodes_app_ok l1 l acc :
  forallb (λ e, node_ok e.2) l1 = true →
  ∃ acc', load_nodes (l1 ++ l) acc = load_nodes l acc'.
Proof.
  revert acc. induction l1 as [|[nid nd] l1 IH]; intros acc; simpl.
  - eauto.
  - intros [Hn Hr]%andb_true_iff.
    apply (node_ok_decode nid) in Hn as [n Hn]. apply node_of_decode in Hn.
    rewrite Hn. simpl. by apply IH.
Qed.

(** X12: the nodes are built in the order of the document and before any
    field.  At the first entry of [tree_nodes] that is not an object with
    [name] and [type], [load] raises [KeyError] for ["name"] if that is
    missing, else for ["type"], and [TypeError] if the entry is no object,
    whatever the later entries, the [fields] section and [root_id] are. *)
Theorem load_first_bad_node (σ : fs) (name : string) (kvs : list (string * py))
    (l1 l2 : list (string * py)) (k : string) (nd : py) :
  σ !! preset_path name = Some (Complete (PDict kvs)) →
  dict_get "tree_nodes" kvs = Some (PDict (l1 ++ (k, nd) :: l2)) →
  forallb (λ e, node_ok e.2) l1 = true →
  node_ok nd = false →
  (load name σ).1 =
    Raise (match nd with
           | PDict nkvs => KeyError (if has_key "name" nkvs then "type" else "name")
           | _ => TypeError
           end).
Proof.
  intros Hfile Htn Hok Hbad. rewrite (load_present _ _ _ Hfile). simpl.
  rewrite load_data_dict, Htn. cbn [default from_option id py_items obind].
  destruct (load_nodes_app_ok l1 ((k, nd) :: l2) ∅ Hok) as [acc ->].
  cbn [load_nodes].
  destruct nd as [| | | | | |nkvs]; try reflexivity.
  rewrite node_of_dict. simpl in Hbad. unfold has_key in *.
  destruct (dict_get "name" nkvs); [|reflexivity].
  destruct (dict_get "type" nkvs); [discriminate|reflexivity].
Qed.

Lemma load_first_bad_node_witness :
  (load "bench"
     (bench_dir (PDict [("fields", PNone);
                        ("tree_nodes",
                         PDict [("root", PDict [("name", PStr "Root");
                                                ("type", PStr "branch")]);
                                ("n1", PDict [("name", PStr "Volts")]);
                                ("n2", PInt 3)])]))).1
  = Raise (KeyError "type").
Proof.
  apply (load_first_bad_node _ "bench"
           [("fields", PNone);
            ("tree_nodes",
             PDict [("root", PDict [("name", PStr "Root"); ("type", PStr "branch")]);
                    ("n1", PDict [("name", PStr "Volts")]);
                    ("n2", PInt 3)])]
           [("root", PDict [("name", PStr "Root"); ("type", PStr "branch")])]
           [("n2", PInt 3)] "n1" (PDict [("name", PStr "Volts")]));
    vm_compute; reflexivity.
Defined.

(** X13: only an absent section is defaulted.  A [tree_nodes] entry that
    is present but is not an object ([null], say) makes [load] raise
    [AttributeError]; so does such a [fields] entry once the nodes have
    been built. *)
Theorem load_section_not_object (σ : fs) (name : string) (kvs : list (string * py))
    (v : py) :
  σ !! preset_path name = Some (Complete (PDict kvs)) →
  is_dict v = false →
  (dict_get "tree_nodes" kvs = Some v → (load name σ).1 = Raise AttributeError)
  ∧ (dict_get "fields" kvs = Some v →
     (∃ items, default (PDict []) (dict_get "tree_nodes" kvs) = PDict items ∧
               forallb (λ e, node_ok e.2) items = true) →
     (load name σ).1 = Raise AttributeError).
Proof.
  intros Hfile Hv. rewrite (load_present _ _ _ Hfile). simpl.
  rewrite load_data_dict. split.
  - intros ->. by destruct v.
  - intros -> (items & -> & Hok). cbn [py_items obind].
    destruct (load_nodes_all_ok items ∅ Hok) as [m ->].
    cbn [obind default from_option id].
    by destruct v.
Qed.

Lemma load_section_not_object_witness :
  (load "bench" (bench_dir (PDict [("tree_nodes", PNone)]))).1 = Raise AttributeError
  ∧ (load "bench" (bench_dir (PDict [("fields", PList [])]))).1 = Raise AttributeError.
Proof.
  split.
  - refine (proj1 (load_section_not_object _ "bench" [("tree_nodes", PNone)] PNone _ _) _);
      vm_compute; reflexivity.
  - refine (proj2 (load_section_not_object _ "bench" [("fields", PList [])] (PList []) _ _)
              _ _); try (vm_compute; reflexivity).
    exists []. split; vm_compute; reflexivity.
Defined.

(** X14: the root check only adds: when the document has an entry for
    its [root_id], the loaded [tree_nodes] is exactly what the entries give,
    and the node under [root_id] is the document's own, whatever its type
    or parent. *)
Theorem load_keeps_existing_root (σ : fs) (name : string) (data : py) (r : string)
    (nd : py) :
  σ !! preset_path name = Some (Complete data) →
  valid_document data = true →
  doc_root data = PStr r →
  dict_get r (doc_nodes data) = Some nd →
  ∃ p,
    load name σ = (Ok p, σ) ∧
    (∀ k, Preset.tree_nodes p !! k = dict_get k (doc_nodes data) ≫= decode_node k) ∧
    Preset.tree_nodes p !! r = decode_node r nd ∧
    is_Some (decode_node r nd).
Proof.
  intros Hfile Hv Hr Hnd.
  destruct (valid_document_load name data Hv)
    as (kvs & nodes & flds & r' & -> & Hr' & Hlook & Hdec & _ & Hl).
  rewrite Hr in Hr'. injection Hr' as <-.
  rewrite (load_present _ _ _ Hfile). simpl. rewrite Hl.
  assert (nodes !! r = decode_node r nd) as Hnr by (by rewrite Hlook, Hnd).
  pose proof (Hdec r nd Hnd) as Hsome.
  rewrite bool_decide_eq_true_2 by (by rewrite Hnr).
  eexists. split; [done|]. simpl. repeat split; try done.
Qed.

Lemma load_keeps_existing_root_witness :
  ∃ p,
    load "bench"
      (bench_dir (PDict [("root_id", PStr "n1");
                         ("tree_nodes",
                          PDict [("n1", PDict [("name", PStr "Volts");
                                               ("type", PStr "field");
                                               ("parent_id", PStr "gone")])])]))
    = (Ok p,
       bench_dir (PDict [("root_id", PStr "n1");
                         ("tree_nodes",
                          PDict [("n1", PDict [("name", PStr "Volts");
                                               ("type", PStr "field");
                                               ("parent_id", PStr "gone")])])]))
    ∧ Preset.tree_nodes p !! "n1" =
        Some (TreeNode.mk "n1" (PStr "Volts") (PStr "field") (PStr "gone")
                (PList []) (PBool true) PNone).
Proof.
  destruct (load_keeps_existing_root
              (bench_dir (PDict [("root_id", PStr "n1");
                                 ("tree_nodes",
                                  PDict [("n1", PDict [("name", PStr "Volts");
                                                       ("type", PStr "field");
                                                       ("parent_id", PStr "gone")])])]))
              "bench" _ "n1"
              (PDict [("name", PStr "Volts"); ("type", PStr "field");
                      ("parent_id", PStr "gone")])
              eq_refl)
    as (p & H1 & _ & H3 & _); try (vm_compute; reflexivity).
  exists p. split; [exact H1|]. rewrite H3. vm_compute. reflexivity.
Defined.



